(** * PyCxs marketplace: the per-good order book of [src/artifacts/marketplace.py]

  A shallow embedding of [Order], [MarketPlaceTransaction], [OrderBook] and
  the part of [Marketplace] that resets the books, followed by the
  properties of admission, matching and settlement.

  Python objects are modelled by value.  The only field the book ever
  writes on an [Order] is [id], at admission; an order that is re-submitted
  while it rests is owned by the submitting agent and is therefore taken
  out of the book before anything reads it again. *)

From Stdlib Require Import ZArith Lia.
From stdpp Require Import base decidable option list sorting strings pretty gmap.

Local Open Scope Z_scope.

(** ** Prices

  [Order.price] is an [int], but the two placeholder orders of an empty
  book carry [-np.inf] and [np.inf].  [number] is the set of values a
  price can take; comparison is the one Python uses between an [int] and
  an infinite [float]. *)

Inductive number : Type :=
  | NegInf
  | Int (z : Z)
  | PosInf.

Global Instance number_eq_dec : EqDecision number.
Proof. solve_decision. Defined.

(** [a <= b] *)
Definition num_leb (a b : number) : bool :=
  match a, b with
  | NegInf, _ => true
  | _, PosInf => true
  | Int x, Int y => x <=? y
  | _, _ => false
  end.

(** [a >= b] *)
Definition num_geb (a b : number) : bool := num_leb b a.
(** [a < b] *)
Definition num_ltb (a b : number) : bool := negb (num_leb b a).
(** [a > b] *)
Definition num_gtb (a b : number) : bool := negb (num_leb a b).

Definition num_le (a b : number) : Prop := num_leb a b = true.

(** A test [before p q], deciding that the price [p] is placed strictly
    before the price [q], orders the prices strictly and totally. *)
Record strict_order (before : number → number → bool) : Prop := {
  before_irrefl p : before p p = false;
  before_asym p q : before p q = true → before q p = false;
  before_total p q : before q p = false → before p q = true ∨ p = q;
  before_le_lt p q r : before q p = false → before q r = true → before p r = true
}.

(** Case analysis on prices, down to linear arithmetic. *)
Ltac num_cases :=
  unfold num_le, num_geb, num_ltb, num_gtb, num_leb in *;
  repeat match goal with
         | p : number |- _ => destruct p
         end;
  simpl in *;
  rewrite ?negb_true_iff, ?negb_false_iff, ?Z.leb_le, ?Z.leb_gt in *;
  try (exfalso; congruence); try congruence; try lia; auto.

(** ** Value types *)

Module Order.
(** [@dataclass class Order]: [good], [price], [quantity], [agent] and
    [id], the last one [None] until the book assigns it.  The generated
    [__eq__] compares the five fields, which is Rocq's equality on the
    record. *)
Record t (Agent : Type) : Type := mk {
  good : string;
  price : number;
  quantity : Z;
  agent : Agent;
  id : option nat
}.
Arguments mk {Agent} _ _ _ _ _.
Arguments good {Agent} _.
Arguments price {Agent} _.
Arguments quantity {Agent} _.
Arguments agent {Agent} _.
Arguments id {Agent} _.

(** [order.id = n] *)
Definition set_id {Agent} (o : t Agent) (n : nat) : t Agent :=
  mk (good o) (price o) (quantity o) (agent o) (Some n).
End Order.

Module MarketPlaceTransaction.
(** [@dataclass class MarketPlaceTransaction(Event)]; [step] is the field
    inherited from [Event], always passed as [0] by the book. *)
Record t (Agent : Type) : Type := mk {
  seller_agent : Agent;
  buyer_agent : Agent;
  good : string;
  quantity : Z;
  price : number;
  step : nat
}.
Arguments mk {Agent} _ _ _ _ _ _.
Arguments seller_agent {Agent} _.
Arguments buyer_agent {Agent} _.
Arguments good {Agent} _.
Arguments quantity {Agent} _.
Arguments price {Agent} _.
Arguments step {Agent} _.
End MarketPlaceTransaction.

Module HistoryRow.
(** One row of the [history] data frame, as [execute] builds it. *)
Record t : Type := mk {
  transaction_id : nat;
  price : number;
  quantity : Z;
  buyer : string;
  seller : string
}.
End HistoryRow.

(** A leg of a transfer: [(asset, amount)]. *)
Definition Leg : Type := string * number.

(** ** The agent side

  [Agent] is imported from [src.core].  The book uses four things of it:
  equality between agents, [name], [get_amounts(asset)] and
  [trade(leg_out, leg_in, counterparty)], and it builds the placeholder
  orders with a default-constructed [Agent()].  They are the parameters of
  the development.  Balances live in a ledger [L] that [trade] updates;
  [trade] returns, as a transfer of the ledger interface does. *)

Class AgentInterface (Agent L : Type) : Type := {
  agent_eq_dec :: EqDecision Agent;
  name : Agent → string;
  default_agent : Agent;
  get_amounts : L → Agent → string → Z;
  trade : L → Agent → Leg → Leg → Agent → L
}.

(** ** Exceptions *)

Inductive exn : Type :=
  | ValueError.        (* list.remove(x): x not in list *)

Inductive outcome (A : Type) : Type :=
  | Returns (v : A)
  | Raises (e : exn).
Arguments Returns {A} _.
Arguments Raises {A} _.

Section OrderBook.
Context {Agent L : Type} `{!AgentInterface Agent L}.

Local Abbreviation Order := (Order.t Agent).
Local Abbreviation Event := (MarketPlaceTransaction.t Agent).

Global Instance Order_eq_dec : EqDecision Order.
Proof. solve_decision. Defined.

Record OrderBook : Type := mkOrderBook {
  product_name : string;
  sell_orders : list Order;
  buy_orders : list Order;
  highest_bid_order : Order;
  lowest_offer_order : Order;
  order_count : nat;
  num_transactions : nat;
  history : list HistoryRow.t;
  best_bid_history : list number;
  best_ask_history : list number;
  event_history : list Event
}.

(** The book and the ledger it settles on. *)
Definition State : Type := OrderBook * L.

(** *** Field assignments *)

Definition set_sell_orders (bk : OrderBook) (v : list Order) : OrderBook :=
  mkOrderBook (product_name bk) v (buy_orders bk) (highest_bid_order bk)
    (lowest_offer_order bk) (order_count bk) (num_transactions bk) (history bk)
    (best_bid_history bk) (best_ask_history bk) (event_history bk).

Definition set_buy_orders (bk : OrderBook) (v : list Order) : OrderBook :=
  mkOrderBook (product_name bk) (sell_orders bk) v (highest_bid_order bk)
    (lowest_offer_order bk) (order_count bk) (num_transactions bk) (history bk)
    (best_bid_history bk) (best_ask_history bk) (event_history bk).

Definition set_highest_bid_order (bk : OrderBook) (v : Order) : OrderBook :=
  mkOrderBook (product_name bk) (sell_orders bk) (buy_orders bk) v
    (lowest_offer_order bk) (order_count bk) (num_transactions bk) (history bk)
    (best_bid_history bk) (best_ask_history bk) (event_history bk).

Definition set_lowest_offer_order (bk : OrderBook) (v : Order) : OrderBook :=
  mkOrderBook (product_name bk) (sell_orders bk) (buy_orders bk) (highest_bid_order bk)
    v (order_count bk) (num_transactions bk) (history bk)
    (best_bid_history bk) (best_ask_history bk) (event_history bk).

Definition set_order_count (bk : OrderBook) (v : nat) : OrderBook :=
  mkOrderBook (product_name bk) (sell_orders bk) (buy_orders bk) (highest_bid_order bk)
    (lowest_offer_order bk) v (num_transactions bk) (history bk)
    (best_bid_history bk) (best_ask_history bk) (event_history bk).

Definition set_num_transactions (bk : OrderBook) (v : nat) : OrderBook :=
  mkOrderBook (product_name bk) (sell_orders bk) (buy_orders bk) (highest_bid_order bk)
    (lowest_offer_order bk) (order_count bk) v (history bk)
    (best_bid_history bk) (best_ask_history bk) (event_history bk).

Definition set_history (bk : OrderBook) (v : list HistoryRow.t) : OrderBook :=
  mkOrderBook (product_name bk) (sell_orders bk) (buy_orders bk) (highest_bid_order bk)
    (lowest_offer_order bk) (order_count bk) (num_transactions bk) v
    (best_bid_history bk) (best_ask_history bk) (event_history bk).

Definition set_best_bid_history (bk : OrderBook) (v : list number) : OrderBook :=
  mkOrderBook (product_name bk) (sell_orders bk) (buy_orders bk) (highest_bid_order bk)
    (lowest_offer_order bk) (order_count bk) (num_transactions bk) (history bk)
    v (best_ask_history bk) (event_history bk).

Definition set_best_ask_history (bk : OrderBook) (v : list number) : OrderBook :=
  mkOrderBook (product_name bk) (sell_orders bk) (buy_orders bk) (highest_bid_order bk)
    (lowest_offer_order bk) (order_count bk) (num_transactions bk) (history bk)
    (best_bid_history bk) v (event_history bk).

Definition set_event_history (bk : OrderBook) (v : list Event) : OrderBook :=
  mkOrderBook (product_name bk) (sell_orders bk) (buy_orders bk) (highest_bid_order bk)
    (lowest_offer_order bk) (order_count bk) (num_transactions bk) (history bk)
    (best_bid_history bk) (best_ask_history bk) v.

(** *** List primitives *)

(** The list [l.remove(x)] leaves when [x] is there: the first element
    equal to [x] is dropped. *)
Fixpoint remove_first (x : Order) (l : list Order) : list Order :=
  match l with
  | [] => []
  | y :: l' => if decide (y = x) then l' else y :: remove_first x l'
  end.

(** [l.remove(x)], which raises [ValueError] when [x] is not in [l]. *)
Definition list_remove (x : Order) (l : list Order) : outcome (list Order) :=
  if decide (x ∈ l) then Returns (remove_first x l) else Raises ValueError.

(** [for existing_order in l: if existing_order.agent == a: l.remove(existing_order)]

    The iterator of a Python list is an index into the live list: it reads
    [l[i]], steps to [i + 1], and stops as soon as [i] is past the end of
    the list as it then is.  Each turn advances [i] and the list never
    grows, so [length l] turns from [i = 0] always reach the end; [fuel]
    counts them. *)
Fixpoint remove_loop (fuel : nat) (a : Agent) (i : nat) (l : list Order) : list Order :=
  match fuel with
  | O => l
  | S fuel' =>
      match l !! i with
      | None => l
      | Some existing_order =>
          if decide (Order.agent existing_order = a)
          then remove_loop fuel' a (S i) (remove_first existing_order l)
          else remove_loop fuel' a (S i) l
      end
  end.

Definition remove_owned (a : Agent) (l : list Order) : list Order :=
  remove_loop (length l) a 0 l.

(** [sorted(l, key=lambda x: x.price)] and
    [sorted(l, key=lambda x: x.price, reverse=True)].  Both are stable:
    orders with equal prices keep their relative order.  [before p q] says
    that a price [p] has to come strictly before a price [q]. *)
Fixpoint insert_sorted (before : number → number → bool) (x : Order) (l : list Order)
  : list Order :=
  match l with
  | [] => [x]
  | y :: l' =>
      if before (Order.price y) (Order.price x)
      then y :: insert_sorted before x l'
      else x :: y :: l'
  end.

Definition sorted_by (before : number → number → bool) (l : list Order) : list Order :=
  foldr (insert_sorted before) [] l.

Definition sorted_ascending : list Order → list Order := sorted_by num_ltb.
Definition sorted_descending : list Order → list Order := sorted_by num_gtb.

(** *** Construction and reset *)

(** [Order(self.product_name, -np.inf, 1, Agent())] *)
Definition no_bid (product : string) : Order :=
  Order.mk product NegInf 1 default_agent None.

(** [Order(self.product_name, np.inf, -1, Agent())] *)
Definition no_offer (product : string) : Order :=
  Order.mk product PosInf (-1) default_agent None.

(** [OrderBook.__init__] *)
Definition init (product : string) : OrderBook :=
  mkOrderBook product [] [] (no_bid product) (no_offer product) 0 0 [] [] [] [].

(** [OrderBook.reset]: the two sides, the two cached orders, the two
    counters and the data frame are assigned; the other attributes are not
    mentioned and keep their value. *)
Definition reset (bk : OrderBook) : OrderBook :=
  let bk := set_sell_orders bk [] in
  let bk := set_buy_orders bk [] in
  let bk := set_highest_bid_order bk (no_bid (product_name bk)) in
  let bk := set_lowest_offer_order bk (no_offer (product_name bk)) in
  let bk := set_order_count bk 0 in
  let bk := set_num_transactions bk 0 in
  set_history bk [].

(** *** Settlement *)

(** [OrderBook.execute].  The transfer is issued first; [remove] comes
    second and may raise, in which case the transfer has already happened
    and nothing is recorded. *)
Definition execute (st : State) (incoming_order book_order : Order)
  : outcome bool * State :=
  let '(bk, l) := st in
  let transaction_price := Order.price book_order in
  let is_incoming_buy_order := 0 <=? Order.quantity incoming_order in
  let transaction_quantity :=
    Z.min (Z.abs (Order.quantity incoming_order)) (Z.abs (Order.quantity book_order)) in
  let record (bk : OrderBook) : OrderBook :=
    let row :=
      HistoryRow.mk (num_transactions bk) transaction_price transaction_quantity
        (if is_incoming_buy_order then name (Order.agent incoming_order)
         else name (Order.agent book_order))
        (if negb is_incoming_buy_order then name (Order.agent incoming_order)
         else name (Order.agent book_order)) in
    let bk := set_history bk (history bk ++ [row]) in
    set_num_transactions bk (S (num_transactions bk)) in
  if is_incoming_buy_order then
    let l := trade l (Order.agent incoming_order)
               ("capital"%string, transaction_price)
               (product_name bk, Int transaction_quantity)
               (Order.agent book_order) in
    match list_remove book_order (sell_orders bk) with
    | Raises e => (Raises e, (bk, l))
    | Returns sells =>
        let bk := set_sell_orders bk sells in
        let bk := set_event_history bk
          (event_history bk ++
             [MarketPlaceTransaction.mk (Order.agent book_order) (Order.agent incoming_order)
                (product_name bk) transaction_quantity transaction_price 0%nat]) in
        (Returns true, (record bk, l))
    end
  else
    let l := trade l (Order.agent incoming_order)
               (product_name bk, Int transaction_quantity)
               ("capital"%string, transaction_price)
               (Order.agent book_order) in
    match list_remove book_order (buy_orders bk) with
    | Raises e => (Raises e, (bk, l))
    | Returns buys =>
        let bk := set_buy_orders bk buys in
        let bk := set_event_history bk
          (event_history bk ++
             [MarketPlaceTransaction.mk (Order.agent incoming_order) (Order.agent book_order)
                (product_name bk) transaction_quantity transaction_price 0%nat]) in
        (Returns true, (record bk, l))
    end.

(** *** Admission *)

(** [OrderBook._can_order_be_executed]; the [isinstance] test cannot fail
    on an [Order]. *)
Definition _can_order_be_executed (st : State) (order : Order) (is_buy_order : bool)
  : outcome bool * State :=
  let bk := st.1 in
  if (is_buy_order && (length (sell_orders bk) =? 0)%nat)
     || (negb is_buy_order && (length (buy_orders bk) =? 0)%nat)
  then (Returns false, st)
  else if is_buy_order
          && num_geb (Order.price order) (Order.price (lowest_offer_order bk))
  then execute st order (lowest_offer_order bk)
  else if negb is_buy_order
          && num_leb (Order.price order) (Order.price (highest_bid_order bk))
  then execute st order (highest_bid_order bk)
  else (Returns false, st).

(** [OrderBook.is_order_legitimate] *)
Definition is_order_legitimate (st : State) (order : Order) (is_buy_order : bool) : bool :=
  let '(bk, l) := st in
  if Order.quantity order =? 0 then false
  else if is_buy_order
          && num_geb (Int (get_amounts l (Order.agent order) "capital")) (Order.price order)
  then true
  else if negb is_buy_order
          && (get_amounts l (Order.agent order) (product_name bk)
              >=? Z.abs (Order.quantity order))
  then true
  else false.

(** [OrderBook.should_remove_existing_order]: the sell side first, then the
    buy side. *)
Definition should_remove_existing_order (bk : OrderBook) (order : Order) : OrderBook :=
  let bk := set_sell_orders bk (remove_owned (Order.agent order) (sell_orders bk)) in
  set_buy_orders bk (remove_owned (Order.agent order) (buy_orders bk)).

(** The two refreshes that close [add]:
    [if len(self.buy_orders) != 0: ...] and [if len(self.sell_orders) != 0: ...]. *)
Definition refresh_bid (bk : OrderBook) : OrderBook :=
  if (length (buy_orders bk) =? 0)%nat then bk
  else
    let bk := set_buy_orders bk (sorted_descending (buy_orders bk)) in
    match buy_orders bk !! 0%nat with
    | Some best => set_highest_bid_order bk best
    | None => bk     (* not taken: sorting keeps the length *)
    end.

Definition refresh_offer (bk : OrderBook) : OrderBook :=
  if (length (sell_orders bk) =? 0)%nat then bk
  else
    let bk := set_sell_orders bk (sorted_ascending (sell_orders bk)) in
    match sell_orders bk !! 0%nat with
    | Some best => set_lowest_offer_order bk best
    | None => bk     (* not taken: sorting keeps the length *)
    end.

(** [OrderBook.add].  The result is [Returns ()] or the exception that left
    [execute]; the state is the one the call leaves behind in both cases. *)
Definition add (st : State) (order : Order) : outcome unit * State :=
  let '(bk, l) := st in
  let order := Order.set_id order (order_count bk) in
  let bk := set_order_count bk (S (order_count bk)) in
  let is_buy_order := 0 <=? Order.quantity order in
  let order_is_legitimate := is_order_legitimate (bk, l) order is_buy_order in
  let bk := should_remove_existing_order bk order in
  if order_is_legitimate then
    match _can_order_be_executed (bk, l) order is_buy_order with
    | (Raises e, st') => (Raises e, st')
    | (Returns order_was_executed, (bk, l)) =>
        let bk :=
          if order_was_executed then bk
          else if is_buy_order then set_buy_orders bk (buy_orders bk ++ [order])
          else set_sell_orders bk (sell_orders bk ++ [order]) in
        let bk := refresh_bid bk in
        let bk := refresh_offer bk in
        (Returns (), (bk, l))
    end
  else (Returns (), (bk, l)).

(** *** Snapshots and inspection *)

(** [OrderBook.step] *)
Definition step (bk : OrderBook) : OrderBook :=
  let bk := set_best_bid_history bk
              (best_bid_history bk ++ [Order.price (highest_bid_order bk)]) in
  set_best_ask_history bk
    (best_ask_history bk ++ [Order.price (lowest_offer_order bk)]).

(** [OrderBook.get_full_orderbook] *)
Definition get_full_orderbook (bk : OrderBook) : list (number * Z) :=
  ((λ order, (Order.price order, Order.quantity order)) <$> buy_orders bk)
  ++ ((λ order, (Order.price order, Order.quantity order)) <$> sell_orders bk).

(** *** The marketplace's books *)

(** [Marketplace.reset(environment)].  [inventories] lists, agent by agent,
    the keys of [agent.inventory]: a book is created for every good other
    than the capital asset that has none yet, then every book is reset. *)
Definition Marketplace_reset (markets : gmap string OrderBook)
    (inventories : list (list string)) : gmap string OrderBook :=
  let markets :=
    foldl (λ markets keys,
             foldl (λ (markets : gmap string OrderBook) good,
                      if decide (good = "capital"%string) then markets
                      else if decide (is_Some (markets !! good)) then markets
                      else <[good := init good]> markets)
                   markets keys)
          markets inventories in
  reset <$> markets.

(** *** Runs of a book

    What happens to a book between two observations: an order is
    submitted, the per-step snapshot is taken, the book is reset, or the
    balances change outside this book (another good's book settles, the
    agents are reset).  A submission that raises leaves the book as the
    exception found it. *)
Inductive op : Type :=
  | OpAdd (order : Order)
  | OpStep
  | OpReset
  | OpLedger (l : L).

Definition run_op (st : State) (o : op) : State :=
  match o with
  | OpAdd order => (add st order).2
  | OpStep => (step st.1, st.2)
  | OpReset => (reset st.1, st.2)
  | OpLedger l => (st.1, l)
  end.

Definition run (st : State) (ops : list op) : State := foldl run_op st ops.

(** The states a book can be in, from a book just built. *)
Inductive reachable (product : string) : State → Prop :=
  | reachable_init l : reachable product (init product, l)
  | reachable_op st o : reachable product st → reachable product (run_op st o).

(** *** Vocabulary of the properties *)

(** The orders resting in the book, both sides together. *)
Definition resting (bk : OrderBook) : list Order := buy_orders bk ++ sell_orders bk.

(** [x] was admitted before [y]: the ids are assigned in sequence. *)
Definition admitted_before (x y : Order) : Prop :=
  match Order.id x, Order.id y with
  | Some m, Some n => (m < n)%nat
  | _, _ => False
  end.

(** [x] may stand before [y] on a side sorted by [before]: its price comes
    strictly first, or the prices are equal and [x] was admitted first. *)
Definition in_order (before : number → number → bool) (x y : Order) : Prop :=
  before (Order.price x) (Order.price y) = true
  ∨ (Order.price x = Order.price y ∧ admitted_before x y).

(** Orders of equal price stand in admission order. *)
Definition ties_in_order (x y : Order) : Prop :=
  Order.price x = Order.price y → admitted_before x y.

(** The cached order of a side: the head of the side, or the placeholder
    when the side is empty. *)
Definition best_of (side : list Order) (placeholder : Order) : Order :=
  default placeholder (head side).

(** What [execute] writes when the resting order is on the side it is
    taken from. *)
Definition settled (bk : OrderBook) (incoming_order book_order : Order) : OrderBook :=
  let q := Z.min (Z.abs (Order.quantity incoming_order)) (Z.abs (Order.quantity book_order)) in
  let buyer := if 0 <=? Order.quantity incoming_order then incoming_order else book_order in
  let seller := if 0 <=? Order.quantity incoming_order then book_order else incoming_order in
  mkOrderBook (product_name bk)
    (if 0 <=? Order.quantity incoming_order
     then remove_first book_order (sell_orders bk) else sell_orders bk)
    (if 0 <=? Order.quantity incoming_order
     then buy_orders bk else remove_first book_order (buy_orders bk))
    (highest_bid_order bk) (lowest_offer_order bk) (order_count bk)
    (S (num_transactions bk))
    (history bk ++
       [HistoryRow.mk (num_transactions bk) (Order.price book_order) q
          (name (Order.agent buyer)) (name (Order.agent seller))])
    (best_bid_history bk) (best_ask_history bk)
    (event_history bk ++
       [MarketPlaceTransaction.mk (Order.agent seller) (Order.agent buyer)
          (product_name bk) q (Order.price book_order) 0%nat]).

(** The one transfer [execute] issues. *)
Definition paid (bk : OrderBook) (l : L) (incoming_order book_order : Order) : L :=
  let q := Z.min (Z.abs (Order.quantity incoming_order)) (Z.abs (Order.quantity book_order)) in
  if 0 <=? Order.quantity incoming_order
  then trade l (Order.agent incoming_order)
         ("capital"%string, Order.price book_order) (product_name bk, Int q)
         (Order.agent book_order)
  else trade l (Order.agent incoming_order)
         (product_name bk, Int q) ("capital"%string, Order.price book_order)
         (Order.agent book_order).

(** The side [execute] takes the resting order from. *)
Definition opposite (bk : OrderBook) (incoming_order : Order) : list Order :=
  if 0 <=? Order.quantity incoming_order then sell_orders bk else buy_orders bk.

(** [bk'] holds a part of what rests in [bk], under the same counter. *)
Definition shrinks (bk bk' : OrderBook) : Prop :=
  buy_orders bk' `sublist_of` buy_orders bk
  ∧ sell_orders bk' `sublist_of` sell_orders bk
  ∧ order_count bk' = order_count bk.

(** The order [add] works with: the submitted order, its id assigned. *)
Definition admitted (bk : OrderBook) (order : Order) : Order :=
  Order.set_id order (order_count bk).

(** The book [add] has after its counter is advanced and the resting orders
    of the submitting agent are taken out. *)
Definition cleared (bk : OrderBook) (order : Order) : OrderBook :=
  should_remove_existing_order (set_order_count bk (S (order_count bk)))
    (admitted bk order).

(** The test under which [_can_order_be_executed] hands the order to
    [execute], and the cached order it hands over with it. *)
Definition crosses (bk : OrderBook) (order : Order) : bool :=
  if 0 <=? Order.quantity order
  then negb (length (sell_orders bk) =? 0)%nat
       && num_geb (Order.price order) (Order.price (lowest_offer_order bk))
  else negb (length (buy_orders bk) =? 0)%nat
       && num_leb (Order.price order) (Order.price (highest_bid_order bk)).

Definition maker (bk : OrderBook) (order : Order) : Order :=
  if 0 <=? Order.quantity order then lowest_offer_order bk else highest_bid_order bk.

(** The side an order rests on. *)
Definition own_side (bk : OrderBook) (order : Order) : list Order :=
  if 0 <=? Order.quantity order then buy_orders bk else sell_orders bk.

(** What every run of a book maintains. *)
Record book_ok (bk : OrderBook) : Prop := {
  ok_ids : ∀ x, x ∈ resting bk → ∃ n, Order.id x = Some n ∧ (n < order_count bk)%nat;
  ok_agents : NoDup (Order.agent <$> resting bk);
  ok_buy : StronglySorted (in_order num_gtb) (buy_orders bk);
  ok_sell : StronglySorted (in_order num_ltb) (sell_orders bk)
}.

End OrderBook.

(** ** A ledger to run the book on *)

(** Modelled from the spec: the balances behind [balance_of(asset)] of the
    ledger interface, agent by agent and asset by asset.  The agents'
    class is in [src.core], outside the sources of the book; agents are
    told apart by their names here. *)
Definition Balances : Type := string → string → Z.

Definition credit (l : Balances) (a asset : string) (amount : Z) : Balances :=
  λ a' asset',
    if decide (a' = a ∧ asset' = asset) then l a' asset' + amount else l a' asset'.

(** Modelled from the spec: [transfer(leg_out, leg_in, counterparty)] of the
    ledger interface, the bilateral exchange behind [Agent.trade]: the
    caller gives [leg_out] to the counterparty and receives [leg_in] from
    it.  The book passes the price of a resting order and a quantity as
    amounts; an amount that is not an integer moves nothing. *)
Definition transfer (l : Balances) (self : string) (leg_out leg_in : Leg)
    (counterparty : string) : Balances :=
  match leg_out.2, leg_in.2 with
  | Int out, Int inc =>
      let l := credit l self leg_out.1 (- out) in
      let l := credit l counterparty leg_out.1 out in
      let l := credit l counterparty leg_in.1 (- inc) in
      credit l self leg_in.1 inc
  | _, _ => l
  end.

(** Modelled from the spec: agents as the ledger interface presents them. *)
Global Instance named_agents : AgentInterface string Balances := {
  name := λ a, a;
  default_agent := "";
  get_amounts := λ l a asset, l a asset;
  trade := transfer
}.

(** *** Scenarios: a book for the good [G] and three funded agents *)

Definition funds : Balances := λ _ _, 100.

Definition order_of (a : string) (p q : Z) : Order.t string :=
  Order.mk "G" (Int p) q a None.

Definition fresh : @State string Balances := (init "G", funds).

Definition submit (st : @State string Balances) (orders : list (Order.t string))
  : @State string Balances :=
  run st (OpAdd <$> orders).

(** A bid of agent A for 3 at 10 rests in the book. *)
Definition bid_rests : @State string Balances :=
  submit fresh [order_of "A" 10 3].

(** ... and agent B has sold 3 into it at 9. *)
Definition bid_taken : @State string Balances :=
  submit fresh [order_of "A" 10 3; order_of "B" 9 (-3)].

(** A bid of agent A for 4 at 10 rests in the book. *)
Definition bid_of_four : @State string Balances :=
  submit fresh [order_of "A" 10 4].

(** Agent A offers 1 at 10, agent B offers 1 at 11. *)
Definition two_offers : @State string Balances :=
  submit fresh [order_of "A" 10 (-1); order_of "B" 11 (-1)].

(** ... and agent A has then bid 1 at 1000, which its capital of 100 does
    not cover. *)
Definition offer_withdrawn : @State string Balances :=
  submit fresh [order_of "A" 10 (-1); order_of "B" 11 (-1); order_of "A" 1000 1].

(** A trade, then the snapshot of the step. *)
Definition traded_and_stepped : @State string Balances :=
  run fresh [OpAdd (order_of "A" 10 3); OpAdd (order_of "B" 9 (-3)); OpStep].

(** ** The marketplace

    [Marketplace] keeps one book per good in the dictionary [markets];
    the books share the ledger of the agents. *)

Section MarketplaceModel.
Context {Agent L : Type} `{!AgentInterface Agent L}.

Local Abbreviation Order := (Order.t Agent).
Local Abbreviation OrderBook := (@OrderBook Agent).

(** What [Marketplace.execute] is handed as [action]: a tuple
    [(good, price, quantity)], an [Order], a list, or anything else.  A
    tuple is read at the indices 0, 1 and 2; tuples are taken with their
    three items. *)
Inductive action : Type :=
  | ActionTuple (market : string) (price : number) (quantity : Z)
  | ActionOrder (order : Order)
  | ActionList
  | ActionOther.

(** The exceptions that leave the marketplace: the [KeyError] of a
    dictionary read at a missing key, the [TypeError] of the dispatch, and
    whatever leaves [OrderBook.add]. *)
Inductive market_exn : Type :=
  | KeyError (key : string)
  | TypeError
  | BookError (e : exn).

Definition Market : Type := gmap string OrderBook * L.

(** [self.markets[market].add(order)]: the read raises [KeyError] when the
    good has no book; the book is changed in place, also when [add]
    raises. *)
Definition add_to_market (mk : Market) (market : string) (order : Order)
  : outcome unit * Market + market_exn :=
  match mk.1 !! market with
  | None => inr (KeyError market)
  | Some bk =>
      let '(r, (bk', l')) := add (bk, mk.2) order in
      inl (r, (<[market := bk']> mk.1, l'))
  end.

(** [Marketplace.execute(agent, action)].  The result is the state the call
    leaves and [None] when it returns, the exception when it raises. *)
Definition Marketplace_execute (mk : Market) (agent : Agent) (a : action)
  : option market_exn * Market :=
  match a with
  | ActionTuple market price quantity =>
      match add_to_market mk market (Order.mk market price quantity agent None) with
      | inr e => (Some e, mk)
      | inl (Returns _, mk') => (None, mk')
      | inl (Raises e, mk') => (Some (BookError e), mk')
      end
  | ActionOrder order =>
      match add_to_market mk (Order.good order) order with
      | inr e => (Some e, mk)
      | inl (Returns _, mk') => (None, mk')
      | inl (Raises e, mk') => (Some (BookError e), mk')
      end
  | ActionList => (Some TypeError, mk)
  | ActionOther => (Some TypeError, mk)
  end.

(** The body of the two loops of [Marketplace.reset], for one key of one
    inventory. *)
Definition register_good (markets : gmap string OrderBook) (good : string)
  : gmap string OrderBook :=
  if decide (good = "capital"%string) then markets
  else if decide (is_Some (markets !! good)) then markets
  else <[good := init good]> markets.

(** The order an action stands for, when the dispatch finds one: the
    [Order] itself, or the one built from a tuple for the acting agent. *)
Definition submitted (agent : Agent) (a : action) : option Order :=
  match a with
  | ActionTuple market price quantity => Some (Order.mk market price quantity agent None)
  | ActionOrder order => Some order
  | ActionList | ActionOther => None
  end.

(** [Marketplace.step] *)
Definition Marketplace_step (markets : gmap string OrderBook) : gmap string OrderBook :=
  step <$> markets.

(** [Marketplace.__getitem__]; the message of the [KeyError], which lists
    the registered goods, is left out. *)
Definition Marketplace_getitem (markets : gmap string OrderBook) (item : string)
  : OrderBook + market_exn :=
  if decide (is_Some (markets !! item))
  then match markets !! item with
       | Some bk => inl bk
       | None => inr (KeyError item)
       end
  else inr (KeyError item).

(** What happens to a marketplace in a run: the driver resets it with the
    inventories of the agents, dispatches an action, takes the snapshots of
    a step, or the balances change outside the marketplace. *)
Inductive market_op : Type :=
  | MarketReset (inventories : list (list string))
  | MarketExecute (agent : Agent) (a : action)
  | MarketStep
  | MarketLedger (l : L).

Definition market_run_op (mk : Market) (o : market_op) : Market :=
  match o with
  | MarketReset inventories => (Marketplace_reset mk.1 inventories, mk.2)
  | MarketExecute agent a => (Marketplace_execute mk agent a).2
  | MarketStep => (Marketplace_step mk.1, mk.2)
  | MarketLedger l => (mk.1, l)
  end.

Definition market_run (mk : Market) (ops : list market_op) : Market :=
  foldl market_run_op mk ops.

(** The states of a marketplace built by [Marketplace()], with no book. *)
Inductive market_reachable : Market → Prop :=
  | market_reachable_new l : market_reachable (∅, l)
  | market_reachable_op mk o :
      market_reachable mk → market_reachable (market_run_op mk o).

(** *** More vocabulary *)

(** The bookkeeping of quantities and trades that every run maintains. *)
Record book_tally (bk : OrderBook) : Prop := {
  tally_buy : ∀ x, x ∈ buy_orders bk → 0 < Order.quantity x;
  tally_sell : ∀ x, x ∈ sell_orders bk → Order.quantity x < 0;
  tally_bid : 0 < Order.quantity (highest_bid_order bk);
  tally_offer : Order.quantity (lowest_offer_order bk) < 0;
  tally_count : num_transactions bk = length (history bk);
  tally_ids : HistoryRow.transaction_id <$> history bk = seq 0 (length (history bk));
  tally_rows : ∀ r, r ∈ history bk → 0 < HistoryRow.quantity r;
  tally_events : ∀ e, e ∈ event_history bk → 0 < MarketPlaceTransaction.quantity e
}.

(** The cached orders are up to date: a side that is not empty has its
    head cached. *)
Definition caches_fresh (bk : OrderBook) : Prop :=
  highest_bid_order bk = best_of (buy_orders bk) (highest_bid_order bk)
  ∧ lowest_offer_order bk = best_of (sell_orders bk) (lowest_offer_order bk).


(** The number of snapshots a run takes. *)
Fixpoint snapshots (ops : list (@op Agent L)) : nat :=
  match ops with
  | [] => 0
  | OpStep :: ops => S (snapshots ops)
  | _ :: ops => snapshots ops
  end.

End MarketplaceModel.

(** *** Scenarios for the marketplace *)

(** A marketplace reset for two agents that hold capital and [G]. *)
Definition one_market : @Market string Balances :=
  market_run (∅, funds) [MarketReset [["capital"; "G"]; ["capital"; "G"]]].

(** ** The environment: [src/environment/base_environment.py]

    The registry of agents that [Marketplace.reset] reads as
    [environment.agents], and the adjacency matrix of the visualisation. *)

Module BaseEnvironment.

(** The two attributes of an agent the environment reads and writes.
    Agents are objects: the environment holds references, and an agent that
    is added twice is one object listed twice. *)
Module AgentObject.
Record t : Type := mk {
  name : string;
  id : option nat
}.
End AgentObject.

(** The agent objects, by reference. *)
Definition Heap : Type := nat → AgentObject.t.

(** [agent.id = n] and [agent.name = s] *)
Definition set_id (heap : Heap) (agent : nat) (n : nat) : Heap :=
  λ r, if decide (r = agent)
       then AgentObject.mk (AgentObject.name (heap r)) (Some n) else heap r.

Definition set_name (heap : Heap) (agent : nat) (s : string) : Heap :=
  λ r, if decide (r = agent)
       then AgentObject.mk s (AgentObject.id (heap r)) else heap r.

Inductive env_exn : Type :=
  | UnsupportedItemType.

Section Registry.
Context {Artifact Controller : Type}.

(** [ArtifactController.add_artifact], which is not in this file. *)
Variable add_to_controller : Controller → Artifact → Controller.

(** [names.get_first_name()]: the name drawn in the call of [add_agent]
    that leaves the agent counter at [n]. *)
Variable get_first_name : nat → string.

(** The attributes of [Environment] that [add], [add_agent] and
    [add_artifact] use. *)
Record Environment : Type := mkEnvironment {
  artifact_controller : Controller;
  agents : list nat;
  agent_names : list string;
  n_agents : nat;
  agent_idx : nat;
  agent_name_lookup : gmap string nat
}.

Definition World : Type := Environment * Heap.

(** What [Environment.__init__] leaves of these attributes. *)
Definition init (controller : Controller) : Environment :=
  mkEnvironment controller [] [] 0 0 ∅.

(** [Environment.add_agent] *)
Definition add_agent (w : World) (agent : nat) : World :=
  let '(env, heap) := w in
  let heap := set_id heap agent (agent_idx env) in
  let idx := S (agent_idx env) in
  let heap :=
    if decide (AgentObject.name (heap agent)
                 ∈ (λ a, AgentObject.name (heap a)) <$> agents env)
    then set_name heap agent (get_first_name idx +:+ pretty idx)
    else heap in
  (mkEnvironment (artifact_controller env)
     (agents env ++ [agent])
     (agent_names env ++ [AgentObject.name (heap agent)])
     (length (agents env ++ [agent]))
     idx
     (<[AgentObject.name (heap agent) := agent]> (agent_name_lookup env)),
   heap).

(** [Environment.add_artifact] *)
Definition add_artifact (w : World) (artifact : Artifact) : World :=
  (mkEnvironment (add_to_controller (artifact_controller w.1) artifact)
     (agents w.1) (agent_names w.1) (n_agents w.1) (agent_idx w.1)
     (agent_name_lookup w.1),
   w.2).

(** What [Environment.add] is handed: an artifact, an agent, a list of
    such items, or anything else. *)
Local Unset Elimination Schemes.
Inductive item : Type :=
  | ItemArtifact (artifact : Artifact)
  | ItemAgent (agent : nat)
  | ItemList (items : list item)
  | ItemOther.
Local Set Elimination Schemes.

(** [Environment.add]: [None] when the call returns, the exception when it
    raises; the state is the one the call leaves. *)
Fixpoint add (w : World) (it : item) : option env_exn * World :=
  match it with
  | ItemArtifact artifact => (None, add_artifact w artifact)
  | ItemAgent agent => (None, add_agent w agent)
  | ItemList items =>
      (fix each (w : World) (items : list item) : option env_exn * World :=
         match items with
         | [] => (None, w)
         | it :: items =>
             match add w it with
             | (None, w) => each w items
             | (Some e, w) => (Some e, w)
             end
         end) w items
  | ItemOther => (Some UnsupportedItemType, w)
  end.

(** The items of a list one after the other, as the loop of [add] takes
    them. *)
Fixpoint add_each (w : World) (items : list item) : option env_exn * World :=
  match items with
  | [] => (None, w)
  | it :: items =>
      match add w it with
      | (None, w) => add_each w items
      | (Some e, w) => (Some e, w)
      end
  end.

(** The items that are not lists, in the order [add] reaches them. *)
Fixpoint leaves (it : item) : list item :=
  match it with
  | ItemList items => (fix each (items : list item) : list item :=
                         match items with
                         | [] => []
                         | it :: items => leaves it ++ each items
                         end) items
  | _ => [it]
  end.

(** The agents among a list of items, in order. *)
Definition agent_refs (items : list item) : list nat :=
  omap (λ it, match it with ItemAgent agent => Some agent | _ => None end) items.

(** The registry in step with the list of agents: the counters are its
    length, and an agent listed once carries its position as id and has its
    current name at that position of [agent_names]. *)
Definition registry_ok (w : World) : Prop :=
  n_agents w.1 = length (agents w.1)
  ∧ length (agent_names w.1) = length (agents w.1)
  ∧ agent_idx w.1 = length (agents w.1)
  ∧ ∀ i r, agents w.1 !! i = Some r →
           length (filter (λ r', r' = r) (agents w.1)) = 1%nat →
           AgentObject.id (w.2 r) = Some i
           ∧ agent_names w.1 !! i = Some (AgentObject.name (w.2 r)).

(** The worlds that calls of [add] make of a new environment. *)
Inductive built (controller : Controller) : World → Prop :=
  | built_new heap : built controller (init controller, heap)
  | built_add w it : built controller w → built controller (add w it).2.

End Registry.

(** *** The adjacency matrix *)

(** [m[i][j]], and [m[i][j] = v] *)
Definition get_cell (m : list (list Z)) (i j : nat) : option Z :=
  m !! i ≫= λ row, row !! j.

Definition set_cell (m : list (list Z)) (i j : nat) (v : Z) : list (list Z) :=
  alter (λ row, <[j := v]> row) i m.

(** [m] has [size] rows of [size] cells. *)
Definition square (size : nat) (m : list (list Z)) : Prop :=
  length m = size ∧ ∀ row, row ∈ m → length row = size.

(** [generate_random_adjacency_matrix(size)], where [randint i j] is the
    value [random.randint(0, 1)] draws for row [i] and column [j].  The
    reads and writes of the loops stay inside the matrix. *)
Definition generate_random_adjacency_matrix (randint : nat → nat → Z) (size : nat)
  : list (list Z) :=
  let adjacency_matrix := (λ i, (λ j, randint i j) <$> seq 0 size) <$> seq 0 size in
  foldl (λ adjacency_matrix i,
           foldl (λ adjacency_matrix j,
                    match get_cell adjacency_matrix j i with
                    | Some v => set_cell adjacency_matrix i j v
                    | None => adjacency_matrix     (* not taken *)
                    end)
                 adjacency_matrix (seq (i + 1) (size - (i + 1))))
        adjacency_matrix (seq 0 size).

(** *** Scenarios for the environment *)

(** Agent objects named [agent0], [agent1], ..., not yet numbered. *)
Definition unnamed : Heap := λ r, AgentObject.mk ("agent" +:+ pretty r) None.

(** A new environment to which two agents are added in one list. *)
Definition two_agents : @World unit :=
  (add (Artifact := unit) (λ c _, c) (λ _, "Ann"%string)
     (init tt, unnamed) (ItemList [ItemAgent 0%nat; ItemAgent 1%nat])).2.

(** Draws with a single 1, below the diagonal. *)
Definition draws : nat → nat → Z :=
  λ i j, if decide (i = 1%nat ∧ j = 0%nat) then 1 else 0.

End BaseEnvironment.

(** * Properties *)

(** ** Prices are totally ordered *)

Lemma num_leb_refl p : num_leb p p = true.
Proof. num_cases. Qed.

Lemma num_leb_total p q : num_leb p q = true ∨ num_leb q p = true.
Proof. destruct p, q; simpl; auto; rewrite !Z.leb_le; lia. Qed.

Lemma num_leb_trans p q r :
  num_leb p q = true → num_leb q r = true → num_leb p r = true.
Proof. intros; num_cases. Qed.

Lemma num_leb_antisym p q : num_leb p q = true → num_leb q p = true → p = q.
Proof. intros; num_cases; f_equal; lia. Qed.

Lemma num_ltb_strict : strict_order num_ltb.
Proof.
  split; intros.
  - num_cases.
  - num_cases.
  - destruct (decide (p = q)) as [->|Hne]; [by right|left].
    num_cases; destruct (decide (z = z0)) as [->|]; [done|lia].
  - num_cases.
Qed.

Lemma num_gtb_strict : strict_order num_gtb.
Proof.
  split; intros.
  - num_cases.
  - num_cases.
  - destruct (decide (p = q)) as [->|Hne]; [by right|left].
    num_cases; destruct (decide (z = z0)) as [->|]; [done|lia].
  - num_cases.
Qed.

Section ListFacts.
Context {Agent L : Type} `{!AgentInterface Agent L}.

Local Abbreviation Order := (Order.t Agent).

Implicit Types (l : list Order) (x y : Order) (a : Agent).

(** *** [remove] *)

Lemma remove_first_sublist x l : remove_first x l `sublist_of` l.
Proof.
  induction l as [|y l IH]; simpl; [constructor|].
  case_decide; [by apply sublist_cons|by apply sublist_skip].
Qed.

Lemma remove_first_length x l :
  x ∈ l → S (length (remove_first x l)) = length l.
Proof.
  induction l as [|y l IH]; simpl; [by intros ?%elem_of_nil|].
  intros Hin. case_decide as Hy; [done|]. simpl. f_equal. apply IH.
  apply elem_of_cons in Hin as [->|?]; [done|done].
Qed.

Lemma remove_first_Permutation x l : x ∈ l → l ≡ₚ x :: remove_first x l.
Proof.
  induction l as [|y l IH]; simpl; [by intros ?%elem_of_nil|].
  intros Hin. case_decide as Hy; [by subst|].
  apply elem_of_cons in Hin as [->|Hin]; [done|].
  rewrite (IH Hin) at 1. apply Permutation_swap.
Qed.

Lemma remove_first_absent x l : NoDup l → x ∉ remove_first x l.
Proof.
  induction 1 as [|y l Hy Hl IH]; simpl; [apply not_elem_of_nil|].
  case_decide as Hxy; [by subst|].
  intros [->|?]%elem_of_cons; [done|by apply IH].
Qed.

Lemma list_remove_Returns x l :
  x ∈ l → list_remove x l = Returns (remove_first x l).
Proof. intros. unfold list_remove. by case_decide. Qed.

Lemma list_remove_Raises x l : x ∉ l → list_remove x l = Raises ValueError.
Proof. intros. unfold list_remove. by case_decide. Qed.

(** *** The removal loop *)

Lemma remove_loop_sublist fuel a i l : remove_loop fuel a i l `sublist_of` l.
Proof.
  revert i l. induction fuel as [|fuel IH]; intros i l; simpl; [done|].
  destruct (l !! i) as [x|]; [|done].
  case_decide; [|apply IH].
  etrans; [apply IH|apply remove_first_sublist].
Qed.

Lemma remove_owned_sublist a l : remove_owned a l `sublist_of` l.
Proof. apply remove_loop_sublist. Qed.

(** Once no order of [a] is left from index [i] on, the loop changes nothing. *)
Lemma remove_loop_skip fuel a i l :
  (∀ j x, i ≤ j → l !! j = Some x → Order.agent x ≠ a)%nat →
  remove_loop fuel a i l = l.
Proof.
  revert i. induction fuel as [|fuel IH]; intros i Hfree; simpl; [done|].
  destruct (l !! i) as [x|] eqn:Hx; [|done].
  case_decide as Ha; [by destruct (Hfree i x)|].
  apply IH. intros j y Hj. apply Hfree. lia.
Qed.

Lemma filter_other_id a l :
  (∀ x, x ∈ l → Order.agent x ≠ a) →
  filter (λ x, Order.agent x ≠ a) l = l.
Proof.
  induction l as [|y l IH]; intros Hfree; [done|].
  rewrite filter_cons_True by (apply Hfree; left).
  f_equal. apply IH. intros x Hx. apply Hfree. by right.
Qed.

(** With one order per agent, removing the order of [a] is filtering. *)
Lemma filter_other_remove_first a x l :
  NoDup (Order.agent <$> l) → x ∈ l → Order.agent x = a →
  filter (λ y, Order.agent y ≠ a) l = remove_first x l.
Proof.
  induction l as [|y l IH]; simpl; intros Hnd Hin Ha; [by apply elem_of_nil in Hin|].
  apply NoDup_cons in Hnd as [Hy Hnd].
  case_decide as Hyx.
  - subst y. rewrite filter_cons_False by naive_solver.
    apply filter_other_id. intros z Hz Hza. apply Hy.
    rewrite Ha, <- Hza. by apply list_elem_of_fmap_2.
  - apply elem_of_cons in Hin as [->|Hin]; [done|].
    rewrite filter_cons_True.
    + f_equal. by apply IH.
    + intros Hya. apply Hy. rewrite Hya, <- Ha. by apply list_elem_of_fmap_2.
Qed.

Lemma remove_loop_filter fuel a i l :
  NoDup (Order.agent <$> l) →
  (length l ≤ i + fuel)%nat →
  (∀ j x, j < i → l !! j = Some x → Order.agent x ≠ a)%nat →
  remove_loop fuel a i l = filter (λ x, Order.agent x ≠ a) l.
Proof.
  revert i. induction fuel as [|fuel IH]; intros i Hnd Hlen Hfree; simpl.
  - symmetry. apply filter_other_id. intros x [j Hj]%list_elem_of_lookup.
    apply (Hfree j); [|done]. apply lookup_lt_Some in Hj. lia.
  - destruct (l !! i) as [x|] eqn:Hx.
    + case_decide as Ha.
      * rewrite (filter_other_remove_first a x) by eauto using list_elem_of_lookup_2.
        apply remove_loop_skip. intros j y _ Hy Hya.
        assert (y ∈ filter (λ z, Order.agent z ≠ a) l) as Hin.
        { rewrite (filter_other_remove_first a x) by eauto using list_elem_of_lookup_2.
          by eapply list_elem_of_lookup_2. }
        apply list_elem_of_filter in Hin as [? _]. done.
      * apply IH; [done|lia|]. intros j y Hj Hy.
        destruct (decide (j = i)) as [->|]; [congruence|]. apply (Hfree j); [lia|done].
    + symmetry. apply filter_other_id. intros y [j Hj]%list_elem_of_lookup.
      apply (Hfree j); [|done].
      apply lookup_lt_Some in Hj. apply lookup_ge_None in Hx. lia.
Qed.

Lemma remove_owned_filter a l :
  NoDup (Order.agent <$> l) →
  remove_owned a l = filter (λ x, Order.agent x ≠ a) l.
Proof.
  intros. apply remove_loop_filter; [done|lia|lia].
Qed.

(** The loop is over within [length l] turns: more fuel changes nothing. *)
Lemma remove_loop_fuel fuel fuel' a i l :
  (length l ≤ i + fuel)%nat → (fuel ≤ fuel')%nat →
  remove_loop fuel' a i l = remove_loop fuel a i l.
Proof.
  revert fuel' i l. induction fuel as [|fuel IH]; intros fuel' i l Hlen Hle.
  - simpl. destruct fuel' as [|fuel']; [done|]. simpl.
    rewrite (proj2 (lookup_ge_None l i)); [done|lia].
  - destruct fuel' as [|fuel']; [lia|]. simpl.
    destruct (l !! i) as [x|] eqn:Hx; [|done].
    case_decide.
    + apply IH; [|lia].
      pose proof (remove_first_length x l (list_elem_of_lookup_2 _ _ _ Hx)). lia.
    + apply IH; lia.
Qed.

End ListFacts.

(** ** Sorting *)

Section Sorting.
Context {Agent L : Type} `{!AgentInterface Agent L}.

Local Abbreviation Order := (Order.t Agent).

Implicit Types (l s : list Order) (x y : Order).

Lemma insert_sorted_Permutation before x s : insert_sorted before x s ≡ₚ x :: s.
Proof.
  induction s as [|y s IH]; simpl; [done|].
  destruct (before _ _); [|done].
  rewrite IH. apply Permutation_swap.
Qed.

Lemma sorted_by_Permutation before l : sorted_by before l ≡ₚ l.
Proof.
  induction l as [|x l IH]; simpl; [done|].
  rewrite insert_sorted_Permutation. by f_equiv.
Qed.

Lemma sorted_by_length before l : length (sorted_by before l) = length l.
Proof. apply Permutation_length, sorted_by_Permutation. Qed.

Lemma sorted_by_elem_of before l x : x ∈ sorted_by before l ↔ x ∈ l.
Proof. by rewrite sorted_by_Permutation. Qed.

Lemma StronglySorted_sublist (R : relation Order) l l' :
  l' `sublist_of` l → StronglySorted R l → StronglySorted R l'.
Proof.
  induction 1 as [|x l1 l2 Hsub IH|x l1 l2 Hsub IH]; intros Hs.
  - constructor.
  - apply StronglySorted_inv in Hs as [Hs Hx]. constructor; [by apply IH|].
    apply Forall_forall. intros y Hy. rewrite Forall_forall in Hx.
    apply Hx. by eapply elem_of_sublist.
  - apply StronglySorted_inv in Hs as [Hs _]. by apply IH.
Qed.

Lemma StronglySorted_snoc (R : relation Order) l x :
  StronglySorted R l → Forall (λ y, R y x) l → StronglySorted R (l ++ [x]).
Proof.
  induction 1 as [|y l Hs IH Hy]; intros Hx; simpl.
  - repeat constructor.
  - apply Forall_cons in Hx as [Hyx Hx]. constructor; [by apply IH|].
    apply Forall_app. split; [done|by apply Forall_singleton].
Qed.

(** A side in order has its ties in admission order. *)
Lemma in_order_ties before l :
  strict_order before →
  StronglySorted (in_order before) l → StronglySorted ties_in_order l.
Proof.
  intros Hb. induction 1 as [|x l Hs IH Hx]; constructor; [done|].
  eapply Forall_impl; [exact Hx|]. intros y [Hlt|[_ Hid]] Heq; [|done].
  rewrite Heq, (before_irrefl _ Hb) in Hlt. done.
Qed.

(** Inserting [x] in front of a sorted side whose orders of the same price
    were all admitted after [x]. *)
Lemma insert_sorted_in_order before x s :
  strict_order before →
  StronglySorted (in_order before) s →
  Forall (ties_in_order x) s →
  StronglySorted (in_order before) (insert_sorted before x s).
Proof.
  intros Hb. induction 1 as [|y s Hs IH Hy]; intros Hx; simpl.
  - repeat constructor.
  - apply Forall_cons in Hx as [Hxy Hx].
    destruct (before (Order.price y) (Order.price x)) eqn:Hyx.
    + constructor; [by apply IH|].
      rewrite insert_sorted_Permutation. constructor; [by left|done].
    + assert (in_order before x y) as Hfirst.
      { destruct (before_total _ Hb _ _ Hyx) as [?|Heq]; [by left|right; auto]. }
      constructor; [by constructor|]. constructor; [done|].
      rewrite Forall_forall in Hx, Hy. apply Forall_forall. intros z Hz.
      destruct (Hy z Hz) as [Hlt|[Heq Hid]].
      * left. by eapply (before_le_lt _ Hb).
      * destruct Hfirst as [Hlt|[Heq' _]].
        -- left. by rewrite <- Heq.
        -- right. split; [congruence|]. apply Hx; [done|congruence].
Qed.

(** [sorted] is stable: a list whose ties are in admission order comes out
    in order. *)
Lemma sorted_by_in_order before l :
  strict_order before →
  StronglySorted ties_in_order l →
  StronglySorted (in_order before) (sorted_by before l).
Proof.
  intros Hb. induction 1 as [|x l Hs IH Hx]; simpl; [constructor|].
  apply insert_sorted_in_order; [done|done|].
  by rewrite sorted_by_Permutation.
Qed.

(** A side that is in order already is left as it is. *)
Lemma sorted_by_fixed before l :
  strict_order before →
  StronglySorted (in_order before) l → sorted_by before l = l.
Proof.
  intros Hb. induction 1 as [|x l Hs IH Hx]; simpl; [done|].
  rewrite IH. destruct l as [|y l]; simpl; [done|].
  apply Forall_cons in Hx as [[Hlt|[Heq _]] _].
  - by rewrite (before_asym _ Hb _ _ Hlt).
  - by rewrite Heq, (before_irrefl _ Hb).
Qed.

End Sorting.

(** ** The book's operations, one at a time *)

Section BookFacts.
Context {Agent L : Type} `{!AgentInterface Agent L}.

Local Abbreviation Order := (Order.t Agent).
Local Abbreviation OrderBook := (@OrderBook Agent).
Local Abbreviation State := (@State Agent L).

Implicit Types (bk : OrderBook) (l : L) (st : State) (order : Order).

(** *** The refreshes that close [add] *)

Lemma refresh_bid_spec bk :
  refresh_bid bk =
  set_highest_bid_order (set_buy_orders bk (sorted_descending (buy_orders bk)))
    (best_of (sorted_descending (buy_orders bk)) (highest_bid_order bk)).
Proof.
  unfold refresh_bid. destruct bk as [? ? buys ? ? ? ? ? ? ? ?]; simpl.
  destruct buys as [|x buys]; [done|].
  pose proof (sorted_by_length num_gtb (x :: buys)) as Hlen.
  unfold sorted_descending, best_of.
  destruct (sorted_by num_gtb (x :: buys)); [done|done].
Qed.

Lemma refresh_offer_spec bk :
  refresh_offer bk =
  set_lowest_offer_order (set_sell_orders bk (sorted_ascending (sell_orders bk)))
    (best_of (sorted_ascending (sell_orders bk)) (lowest_offer_order bk)).
Proof.
  unfold refresh_offer. destruct bk as [? sells ? ? ? ? ? ? ? ? ?]; simpl.
  destruct sells as [|x sells]; [done|].
  pose proof (sorted_by_length num_ltb (x :: sells)) as Hlen.
  unfold sorted_ascending, best_of.
  destruct (sorted_by num_ltb (x :: sells)); [done|done].
Qed.

(** *** [execute] *)

Lemma execute_Returns bk l incoming_order book_order :
  book_order ∈ opposite bk incoming_order →
  execute (bk, l) incoming_order book_order
  = (Returns true, (settled bk incoming_order book_order,
                    paid bk l incoming_order book_order)).
Proof.
  unfold opposite, execute, settled, paid. intros Hin.
  destruct (0 <=? Order.quantity incoming_order); simpl;
    by rewrite (list_remove_Returns _ _ Hin).
Qed.

Lemma execute_Raises bk l incoming_order book_order :
  book_order ∉ opposite bk incoming_order →
  execute (bk, l) incoming_order book_order
  = (Raises ValueError, (bk, paid bk l incoming_order book_order)).
Proof.
  unfold opposite, execute, settled, paid. intros Hin.
  destruct (0 <=? Order.quantity incoming_order); simpl;
    by rewrite (list_remove_Raises _ _ Hin).
Qed.

Lemma shrinks_refl bk : shrinks bk bk.
Proof. by repeat split. Qed.

Lemma shrinks_trans bk1 bk2 bk3 : shrinks bk1 bk2 → shrinks bk2 bk3 → shrinks bk1 bk3.
Proof.
  intros (?&?&?) (?&?&?). repeat split; [by etrans|by etrans|congruence].
Qed.

Lemma execute_shrinks st incoming_order book_order :
  shrinks st.1 (execute st incoming_order book_order).2.1.
Proof.
  destruct st as [bk l].
  destruct (decide (book_order ∈ opposite bk incoming_order)) as [Hin|Hin].
  - rewrite (execute_Returns _ _ _ _ Hin). unfold settled; simpl.
    destruct (0 <=? _); repeat split; simpl; auto using remove_first_sublist.
  - rewrite (execute_Raises _ _ _ _ Hin). apply shrinks_refl.
Qed.

Lemma can_order_be_executed_shrinks st order is_buy_order :
  shrinks st.1 (_can_order_be_executed st order is_buy_order).2.1.
Proof.
  unfold _can_order_be_executed.
  repeat match goal with
         | |- context [if ?b then _ else _] => destruct b
         end; auto using shrinks_refl, execute_shrinks.
Qed.

(** *** [should_remove_existing_order] *)

Lemma should_remove_shrinks bk order :
  shrinks bk (should_remove_existing_order bk order).
Proof. repeat split; simpl; apply remove_owned_sublist. Qed.

Lemma should_remove_filter bk order :
  NoDup (Order.agent <$> resting bk) →
  buy_orders (should_remove_existing_order bk order)
    = filter (λ x, Order.agent x ≠ Order.agent order) (buy_orders bk)
  ∧ sell_orders (should_remove_existing_order bk order)
    = filter (λ x, Order.agent x ≠ Order.agent order) (sell_orders bk).
Proof.
  unfold resting. rewrite fmap_app. intros (Hb & _ & Hs)%NoDup_app. simpl.
  by rewrite !remove_owned_filter.
Qed.

End BookFacts.

(** ** What every run maintains *)

Section Invariant.
Context {Agent L : Type} `{!AgentInterface Agent L}.

Local Abbreviation Order := (Order.t Agent).
Local Abbreviation OrderBook := (@OrderBook Agent).
Local Abbreviation State := (@State Agent L).

Implicit Types (bk : OrderBook) (l : L) (st : State) (order : Order).

Lemma resting_shrinks bk bk' :
  shrinks bk bk' → resting bk' `sublist_of` resting bk.
Proof. intros (?&?&?). by apply sublist_app. Qed.

Lemma book_ok_init product : book_ok (init product).
Proof.
  split; simpl.
  - by intros x ?%elem_of_nil.
  - constructor.
  - constructor.
  - constructor.
Qed.

Lemma book_ok_reset bk : book_ok (reset bk).
Proof.
  split; simpl.
  - by intros x ?%elem_of_nil.
  - constructor.
  - constructor.
  - constructor.
Qed.

Lemma book_ok_step bk : book_ok bk → book_ok (step bk).
Proof. intros [? ? ? ?]. by split. Qed.

(** Taking orders out of an orderly book, under a counter that does not go
    back, leaves an orderly book. *)
Lemma book_ok_shrinks bk bk' :
  book_ok bk →
  buy_orders bk' `sublist_of` buy_orders bk →
  sell_orders bk' `sublist_of` sell_orders bk →
  (order_count bk ≤ order_count bk')%nat →
  book_ok bk'.
Proof.
  intros [Hids Hag Hbuy Hsell] Hb Hs Hc.
  assert (resting bk' `sublist_of` resting bk) as Hsub by by apply sublist_app.
  split.
  - intros x Hx. destruct (Hids x) as (n & ? & ?); [by eapply elem_of_sublist|].
    exists n. split; [done|lia].
  - eapply sublist_NoDup; [exact Hag|by apply fmap_sublist].
  - by eapply StronglySorted_sublist.
  - by eapply StronglySorted_sublist.
Qed.

(** Sorting both sides of a book whose ties stand in admission order. *)
Lemma book_ok_refresh bk :
  (∀ x, x ∈ resting bk → ∃ n, Order.id x = Some n ∧ (n < order_count bk)%nat) →
  NoDup (Order.agent <$> resting bk) →
  StronglySorted ties_in_order (buy_orders bk) →
  StronglySorted ties_in_order (sell_orders bk) →
  book_ok (refresh_offer (refresh_bid bk)).
Proof.
  intros Hids Hag Hbuy Hsell.
  rewrite refresh_offer_spec, refresh_bid_spec.
  assert (resting (set_lowest_offer_order
            (set_sell_orders
               (set_highest_bid_order
                  (set_buy_orders bk (sorted_descending (buy_orders bk)))
                  (best_of (sorted_descending (buy_orders bk)) (highest_bid_order bk)))
               (sorted_ascending (sell_orders bk)))
            (best_of (sorted_ascending (sell_orders bk)) (lowest_offer_order bk)))
          ≡ₚ resting bk) as Hperm.
  { unfold resting; simpl. unfold sorted_descending, sorted_ascending.
    by rewrite !sorted_by_Permutation. }
  split.
  - intros x Hx. rewrite Hperm in Hx. by apply Hids.
  - by rewrite Hperm.
  - simpl. apply sorted_by_in_order; [apply num_gtb_strict|done].
  - simpl. apply sorted_by_in_order; [apply num_ltb_strict|done].
Qed.

(** [add], with its first three statements named. *)
Lemma add_unfold bk l order :
  add (bk, l) order =
  if is_order_legitimate (bk, l) order (0 <=? Order.quantity order) then
    match _can_order_be_executed (cleared bk order, l) (admitted bk order)
            (0 <=? Order.quantity order) with
    | (Raises e, st') => (Raises e, st')
    | (Returns order_was_executed, (bk', l')) =>
        (Returns (),
         (refresh_offer (refresh_bid
            (if order_was_executed then bk'
             else if 0 <=? Order.quantity order
                  then set_buy_orders bk' (buy_orders bk' ++ [admitted bk order])
                  else set_sell_orders bk' (sell_orders bk' ++ [admitted bk order]))),
          l'))
    end
  else (Returns (), (cleared bk order, l)).
Proof. reflexivity. Qed.

Lemma cleared_shrinks bk order :
  buy_orders (cleared bk order) `sublist_of` buy_orders bk
  ∧ sell_orders (cleared bk order) `sublist_of` sell_orders bk
  ∧ order_count (cleared bk order) = S (order_count bk).
Proof. repeat split; simpl; apply remove_owned_sublist. Qed.

Lemma cleared_filter bk order :
  NoDup (Order.agent <$> resting bk) →
  buy_orders (cleared bk order)
    = filter (λ x, Order.agent x ≠ Order.agent order) (buy_orders bk)
  ∧ sell_orders (cleared bk order)
    = filter (λ x, Order.agent x ≠ Order.agent order) (sell_orders bk).
Proof.
  intros Hag.
  apply (should_remove_filter (set_order_count bk (S (order_count bk)))
           (admitted bk order) Hag).
Qed.

(** [add] keeps the book orderly, whether it returns or raises. *)
Lemma book_ok_add st order : book_ok st.1 → book_ok (add st order).2.1.
Proof.
  destruct st as [bk l]. cbn [fst]. intros Hok.
  pose proof Hok as [Hids Hag Hbuy Hsell].
  rewrite add_unfold.
  pose proof (cleared_shrinks bk order) as (Hb2 & Hs2 & Hc2).
  destruct (is_order_legitimate _ _ _).
  2:{ cbn [fst snd]. eapply book_ok_shrinks; eauto. lia. }
  pose proof (can_order_be_executed_shrinks (cleared bk order, l) (admitted bk order)
                (0 <=? Order.quantity order)) as H23.
  destruct (_can_order_be_executed _ _ _) as [[executed|e] [bk3 l3]];
    cbn [fst snd] in *; destruct H23 as (Hb3 & Hs3 & Hc3).
  2:{ eapply book_ok_shrinks; [exact Hok|by etrans|by etrans|lia]. }
  assert (resting bk3 `sublist_of` resting (cleared bk order)) as Hsub32
    by by apply sublist_app.
  assert (resting bk3 `sublist_of` resting bk) as Hsub.
  { etrans; [exact Hsub32|]. by apply sublist_app. }
  assert (∀ x, x ∈ resting bk3 →
               ∃ n, Order.id x = Some n ∧ (n < order_count bk)%nat) as Hids3.
  { intros x Hx. apply Hids. by eapply elem_of_sublist. }
  assert (NoDup (Order.agent <$> resting bk3)) as Hag3.
  { eapply sublist_NoDup; [exact Hag|by apply fmap_sublist]. }
  assert (StronglySorted ties_in_order (buy_orders bk3)) as Hbuy3.
  { eapply in_order_ties; [apply num_gtb_strict|].
    eapply StronglySorted_sublist; [|exact Hbuy]. by etrans. }
  assert (StronglySorted ties_in_order (sell_orders bk3)) as Hsell3.
  { eapply in_order_ties; [apply num_ltb_strict|].
    eapply StronglySorted_sublist; [|exact Hsell]. by etrans. }
  assert (∀ x, x ∈ resting bk3 → Order.agent x ≠ Order.agent order) as Hfree.
  { intros x Hx.
    assert (x ∈ resting (cleared bk order)) as Hx2 by by eapply elem_of_sublist.
    destruct (cleared_filter bk order Hag) as [Hfb Hfs].
    unfold resting in Hx2. rewrite Hfb, Hfs in Hx2.
    apply elem_of_app in Hx2 as [[? _]%list_elem_of_filter|[? _]%list_elem_of_filter]; done. }
  assert (∀ x, x ∈ resting bk3 → ties_in_order x (admitted bk order)) as Hties.
  { intros x Hx _. destruct (Hids3 x Hx) as (n & Hn & Hlt).
    unfold admitted_before. by rewrite Hn. }
  destruct executed.
  { apply book_ok_refresh; try done.
    intros x Hx. destruct (Hids3 x Hx) as (n & ? & ?). exists n. split; [done|lia]. }
  destruct (0 <=? Order.quantity order).
  - apply book_ok_refresh; simpl.
    + unfold resting; simpl. intros x Hx.
      rewrite <- (assoc_L (++)), elem_of_app, elem_of_app, list_elem_of_singleton in Hx.
      rewrite Hc3, Hc2.
      destruct Hx as [Hx|[->|Hx]]; [| by exists (order_count bk); split; [|lia] |].
      * destruct (Hids3 x) as (n & ? & ?); [apply elem_of_app; by left|].
        exists n. split; [done|lia].
      * destruct (Hids3 x) as (n & ? & ?); [apply elem_of_app; by right|].
        exists n. split; [done|lia].
    + unfold resting; simpl.
      rewrite <- (assoc_L (++)). rewrite (Permutation_app_comm [admitted bk order]).
      rewrite (assoc_L (++)). rewrite fmap_app. apply NoDup_app. split; [done|]. split.
      * intros a [x [-> Hx]]%list_elem_of_fmap Ha.
        apply list_elem_of_singleton in Ha. by apply (Hfree x).
      * apply NoDup_singleton.
    + apply StronglySorted_snoc; [done|]. apply Forall_forall.
      intros x Hx. apply Hties. apply elem_of_app. by left.
    + done.
  - apply book_ok_refresh; simpl.
    + unfold resting; simpl. intros x Hx.
      rewrite (assoc_L (++)), elem_of_app, list_elem_of_singleton in Hx.
      rewrite Hc3, Hc2.
      destruct Hx as [Hx | ->]; [| by exists (order_count bk); split; [|lia] ].
      destruct (Hids3 x Hx) as (n & ? & ?). exists n. split; [done|lia].
    + unfold resting; simpl.
      rewrite (assoc_L (++)). rewrite fmap_app. apply NoDup_app. split; [done|]. split.
      * intros a [x [-> Hx]]%list_elem_of_fmap Ha.
        apply list_elem_of_singleton in Ha. by apply (Hfree x).
      * apply NoDup_singleton.
    + done.
    + apply StronglySorted_snoc; [done|]. apply Forall_forall.
      intros x Hx. apply Hties. apply elem_of_app. by right.
Qed.

Lemma book_ok_run_op st o : book_ok st.1 → book_ok (run_op st o).1.
Proof.
  destruct o; simpl; auto using book_ok_add, book_ok_step, book_ok_reset.
Qed.

Lemma reachable_book_ok product st : reachable product st → book_ok st.1.
Proof.
  induction 1 as [l|st o _ IH]; [apply book_ok_init|by apply book_ok_run_op].
Qed.

Lemma reachable_run product st ops :
  reachable product st → reachable product (run st ops).
Proof.
  revert st. induction ops as [|o ops IH]; intros st Hst; simpl; [done|].
  apply IH. by constructor.
Qed.

End Invariant.

(** ** The four ways through [add] *)

Section Admission.
Context {Agent L : Type} `{!AgentInterface Agent L}.

Local Abbreviation Order := (Order.t Agent).
Local Abbreviation OrderBook := (@OrderBook Agent).
Local Abbreviation State := (@State Agent L).

Implicit Types (bk : OrderBook) (l : L) (st : State) (order : Order).

Lemma can_order_be_executed_spec bk l order :
  _can_order_be_executed (bk, l) order (0 <=? Order.quantity order)
  = if crosses bk order then execute (bk, l) order (maker bk order)
    else (Returns false, (bk, l)).
Proof.
  unfold _can_order_be_executed, crosses, maker. cbn [fst].
  destruct (0 <=? Order.quantity order); cbn [negb andb orb].
  - destruct (length (sell_orders bk) =? 0)%nat; cbn [negb andb orb]; [done|].
    by destruct (num_geb _ _).
  - destruct (length (buy_orders bk) =? 0)%nat; cbn [negb andb orb]; [done|].
    by destruct (num_leb _ _).
Qed.

(** An illegitimate order: only the clearing is left of the call. *)
Lemma add_dropped bk l order :
  is_order_legitimate (bk, l) order (0 <=? Order.quantity order) = false →
  add (bk, l) order = (Returns (), (cleared bk order, l)).
Proof. intros Hl. by rewrite add_unfold, Hl. Qed.

(** A legitimate order that does not cross is appended to its side. *)
Lemma add_rests bk l order :
  is_order_legitimate (bk, l) order (0 <=? Order.quantity order) = true →
  crosses (cleared bk order) (admitted bk order) = false →
  add (bk, l) order
  = (Returns (),
     (refresh_offer (refresh_bid
        (if 0 <=? Order.quantity order
         then set_buy_orders (cleared bk order)
                (buy_orders (cleared bk order) ++ [admitted bk order])
         else set_sell_orders (cleared bk order)
                (sell_orders (cleared bk order) ++ [admitted bk order]))),
      l)).
Proof.
  intros Hl Hc. rewrite add_unfold, Hl.
  change (0 <=? Order.quantity order)
    with (0 <=? Order.quantity (admitted bk order)) at 1.
  by rewrite can_order_be_executed_spec, Hc.
Qed.

(** A legitimate order that crosses a cached order still on its side. *)
Lemma add_executes bk l order :
  is_order_legitimate (bk, l) order (0 <=? Order.quantity order) = true →
  crosses (cleared bk order) (admitted bk order) = true →
  maker (cleared bk order) (admitted bk order)
    ∈ opposite (cleared bk order) (admitted bk order) →
  add (bk, l) order
  = (Returns (),
     (refresh_offer (refresh_bid
        (settled (cleared bk order) (admitted bk order)
           (maker (cleared bk order) (admitted bk order)))),
      paid (cleared bk order) l (admitted bk order)
        (maker (cleared bk order) (admitted bk order)))).
Proof.
  intros Hl Hc Hin. rewrite add_unfold, Hl.
  change (0 <=? Order.quantity order)
    with (0 <=? Order.quantity (admitted bk order)) at 1.
  by rewrite can_order_be_executed_spec, Hc, (execute_Returns _ _ _ _ Hin).
Qed.

(** A legitimate order that crosses a cached order no longer on its side:
    the transfer is made, [remove] raises. *)
Lemma add_raises bk l order :
  is_order_legitimate (bk, l) order (0 <=? Order.quantity order) = true →
  crosses (cleared bk order) (admitted bk order) = true →
  maker (cleared bk order) (admitted bk order)
    ∉ opposite (cleared bk order) (admitted bk order) →
  add (bk, l) order
  = (Raises ValueError,
     (cleared bk order,
      paid (cleared bk order) l (admitted bk order)
        (maker (cleared bk order) (admitted bk order)))).
Proof.
  intros Hl Hc Hin. rewrite add_unfold, Hl.
  change (0 <=? Order.quantity order)
    with (0 <=? Order.quantity (admitted bk order)) at 1.
  by rewrite can_order_be_executed_spec, Hc, (execute_Raises _ _ _ _ Hin).
Qed.

(** On sides that are in order the closing sort moves nothing. *)
Lemma refresh_sides_fixed bk :
  StronglySorted (in_order num_gtb) (buy_orders bk) →
  StronglySorted (in_order num_ltb) (sell_orders bk) →
  buy_orders (refresh_offer (refresh_bid bk)) = buy_orders bk
  ∧ sell_orders (refresh_offer (refresh_bid bk)) = sell_orders bk.
Proof.
  intros Hb Hs. rewrite refresh_offer_spec, refresh_bid_spec. simpl.
  unfold sorted_descending, sorted_ascending.
  rewrite (sorted_by_fixed _ _ num_gtb_strict Hb), (sorted_by_fixed _ _ num_ltb_strict Hs).
  done.
Qed.

Lemma refresh_others bk :
  let bk' := refresh_offer (refresh_bid bk) in
  product_name bk' = product_name bk
  ∧ order_count bk' = order_count bk
  ∧ num_transactions bk' = num_transactions bk
  ∧ history bk' = history bk
  ∧ best_bid_history bk' = best_bid_history bk
  ∧ best_ask_history bk' = best_ask_history bk
  ∧ event_history bk' = event_history bk.
Proof. simpl. by rewrite refresh_offer_spec, refresh_bid_spec. Qed.


Lemma filter_agent_nil (a : Agent) (l : list Order) :
  a ∉ Order.agent <$> l → filter (λ x, Order.agent x = a) l = [].
Proof.
  induction l as [|x l IH]; simpl; [done|]. intros Ha.
  apply not_elem_of_cons in Ha as [Hx Ha].
  rewrite filter_cons_False by done. by apply IH.
Qed.

Lemma at_most_one_of (a : Agent) (l : list Order) :
  NoDup (Order.agent <$> l) →
  (length (filter (λ x, Order.agent x = a) l) ≤ 1)%nat.
Proof.
  induction l as [|x l IH]; simpl; [lia|]. intros [Hx Hl]%NoDup_cons.
  destruct (decide (Order.agent x = a)) as [Ha|Ha].
  - rewrite filter_cons_True by done. simpl.
    rewrite filter_agent_nil; [simpl; lia|]. by rewrite <- Ha.
  - rewrite filter_cons_False by done. by apply IH.
Qed.

End Admission.

(** ** Legitimacy, settlement and the invariants of a run *)

Section Claims.
Context {Agent L : Type} `{!AgentInterface Agent L}.

Local Abbreviation Order := (Order.t Agent).
Local Abbreviation OrderBook := (@OrderBook Agent).
Local Abbreviation State := (@State Agent L).

Implicit Types (bk : OrderBook) (l : L) (st : State) (order : Order).

(** C2.  The legitimacy check, called as [add] calls it, accepts an order
    exactly when its quantity is not zero and either it is a buy
    ([quantity > 0]) whose agent holds at least the unit price in capital,
    or it is a sell ([quantity < 0]) whose agent holds at least [|quantity|]
    of the traded good.  The quantity does not enter the test of a buy. *)
Theorem is_order_legitimate_iff bk l order :
  is_order_legitimate (bk, l) order (0 <=? Order.quantity order) = true
  ↔ Order.quantity order ≠ 0
    ∧ ((0 < Order.quantity order
        ∧ num_le (Order.price order)
            (Int (get_amounts l (Order.agent order) "capital")))
       ∨ (Order.quantity order < 0
          ∧ Z.abs (Order.quantity order)
            ≤ get_amounts l (Order.agent order) (product_name bk))).
Proof.
  unfold is_order_legitimate, num_le, num_geb.
  destruct (Z.eqb_spec (Order.quantity order) 0) as [Hz|Hz].
  { split; [done|]. intros [? _]. done. }
  destruct (Z.leb_spec 0 (Order.quantity order)) as [Hq|Hq]; cbn [negb andb].
  - destruct (num_leb _ _); split; try done.
    + intros _. split; [done|]. left. split; [lia|done].
    + intros [_ [[_ ?]|[? _]]]; [done|lia].
  - rewrite Z.geb_leb.
    destruct (Z.leb_spec (Z.abs (Order.quantity order))
                (get_amounts l (Order.agent order) (product_name bk))); split; try done.
    + intros _. split; [done|]. right. split; [lia|done].
    + intros [_ [[? _]|[_ ?]]]; lia.
Qed.

(** C4.  In every state a run reaches, an agent has at most one order
    resting in the book, the two sides counted together; and the clearing
    that opens every admission leaves no order of the submitting agent on
    either side. *)
Theorem one_resting_order_per_agent product st :
  reachable product st →
  (∀ a, (length (filter (λ x, Order.agent x = a) (resting st.1)) ≤ 1)%nat)
  ∧ (∀ order x, x ∈ resting (cleared st.1 order) → Order.agent x ≠ Order.agent order).
Proof.
  intros Hr. apply reachable_book_ok in Hr as [_ Hag _ _]. split.
  - intros a. by apply at_most_one_of.
  - intros order x Hx. destruct (cleared_filter st.1 order Hag) as [Hb Hs].
    unfold resting in Hx. rewrite Hb, Hs in Hx.
    apply elem_of_app in Hx as [[? _]%list_elem_of_filter|[? _]%list_elem_of_filter]; done.
Qed.

(** C5.  An execution against an order that rests on the opposite side
    returns, and it issues one transfer, made by the incoming agent with the
    resting agent as counterparty: the capital leg is the resting order's
    unit price, the goods leg is [min(|incoming|, |resting|)] of the traded
    good, capital going out for an incoming buy and coming in for an
    incoming sell.  One row (transaction id, price, quantity, buyer, seller)
    is appended to the history, one event to the event log, and the trade
    counter grows by one. *)
Theorem execute_settles bk l incoming_order book_order :
  book_order ∈ opposite bk incoming_order →
  let q := Z.min (Z.abs (Order.quantity incoming_order))
                 (Z.abs (Order.quantity book_order)) in
  let buyer := if 0 <=? Order.quantity incoming_order
               then Order.agent incoming_order else Order.agent book_order in
  let seller := if 0 <=? Order.quantity incoming_order
                then Order.agent book_order else Order.agent incoming_order in
  ∃ bk',
    execute (bk, l) incoming_order book_order
    = (Returns true,
       (bk',
        if 0 <=? Order.quantity incoming_order
        then trade l buyer ("capital"%string, Order.price book_order)
               (product_name bk, Int q) seller
        else trade l seller (product_name bk, Int q)
               ("capital"%string, Order.price book_order) buyer))
    ∧ history bk'
      = history bk ++ [HistoryRow.mk (num_transactions bk) (Order.price book_order) q
                         (name buyer) (name seller)]
    ∧ event_history bk'
      = event_history bk ++ [MarketPlaceTransaction.mk seller buyer (product_name bk) q
                               (Order.price book_order) 0%nat]
    ∧ num_transactions bk' = S (num_transactions bk).
Proof.
  intros Hin q buyer seller.
  exists (settled bk incoming_order book_order).
  rewrite (execute_Returns _ _ _ _ Hin).
  unfold settled, paid, q, buyer, seller.
  destruct (0 <=? Order.quantity incoming_order); simpl; done.
Qed.

(** C7.  An order that fails the legitimacy check is dropped without an
    error: [add] returns, the ledger, the history, the event log and the
    trade counter are as before, the order is on neither side, and each side
    is what it was less the orders of the submitting agent, none of which
    is left. *)
Theorem illegitimate_order_dropped product st order :
  reachable product st →
  is_order_legitimate st order (0 <=? Order.quantity order) = false →
  let st' := (add st order).2 in
  (add st order).1 = Returns ()
  ∧ st'.2 = st.2
  ∧ history st'.1 = history st.1
  ∧ event_history st'.1 = event_history st.1
  ∧ num_transactions st'.1 = num_transactions st.1
  ∧ buy_orders st'.1
    = filter (λ x, Order.agent x ≠ Order.agent order) (buy_orders st.1)
  ∧ sell_orders st'.1
    = filter (λ x, Order.agent x ≠ Order.agent order) (sell_orders st.1)
  ∧ (admitted (st.1) order ∉ resting (st'.1))
  ∧ (∀ x, x ∈ resting st'.1 → Order.agent x ≠ Order.agent order).
Proof.
  destruct st as [bk l]. intros Hr Hl.
  apply reachable_book_ok in Hr as [_ Hag _ _]. cbn [fst] in Hag.
  rewrite (add_dropped _ _ _ Hl). cbn [fst snd].
  destruct (cleared_filter bk order Hag) as [Hb Hs].
  assert (∀ x, x ∈ resting (cleared bk order) → Order.agent x ≠ Order.agent order)
    as Hfree.
  { intros x Hx. unfold resting in Hx. rewrite Hb, Hs in Hx.
    apply elem_of_app in Hx as [[? _]%list_elem_of_filter|[? _]%list_elem_of_filter]; done. }
  repeat split; try done.
  intros Hin. by apply (Hfree _ Hin).
Qed.

(** C8.  In every state a run reaches, the buy side is in descending order
    of price and the sell side in ascending order of price, orders of equal
    price standing in the order of their admission; the state an admission
    leaves is in that order again, and taking an order out of a side keeps
    the side in order. *)
Theorem sides_sorted product st :
  reachable product st →
  (StronglySorted (in_order num_gtb) (buy_orders st.1)
   ∧ StronglySorted (in_order num_ltb) (sell_orders st.1))
  ∧ (∀ order,
       StronglySorted (in_order num_gtb) (buy_orders (add st order).2.1)
       ∧ StronglySorted (in_order num_ltb) (sell_orders (add st order).2.1))
  ∧ (∀ x,
       StronglySorted (in_order num_gtb) (remove_first x (buy_orders st.1))
       ∧ StronglySorted (in_order num_ltb) (remove_first x (sell_orders st.1))).
Proof.
  intros Hr. pose proof (reachable_book_ok _ _ Hr) as Hok.
  split; [|split].
  - by destruct Hok.
  - intros order. by destruct (book_ok_add st order Hok).
  - intros x. destruct Hok as [_ _ Hb Hs].
    split; (eapply StronglySorted_sublist; [apply remove_first_sublist|done]).
Qed.

(** C3.  When a legitimate order crosses the cached order of the opposite
    side and that order rests there, the admission returns after one
    execution: the trade counter grows by one and one row is appended, for
    the quantity [min(|incoming|, |resting|)], which is the resting
    magnitude when the incoming one exceeds it.  The opposite side loses
    that one order and nothing else; the incoming order's own side is left
    as the clearing left it, so neither the order nor its excess is
    inserted, and no order of the submitting agent rests afterwards. *)
Theorem excess_discarded product st order :
  reachable product st →
  is_order_legitimate st order (0 <=? Order.quantity order) = true →
  crosses (cleared (st.1) order) (admitted (st.1) order) = true →
  maker (cleared (st.1) order) (admitted (st.1) order)
    ∈ opposite (cleared (st.1) order) order →
  let m := maker (cleared (st.1) order) (admitted (st.1) order) in
  let q := Z.min (Z.abs (Order.quantity order)) (Z.abs (Order.quantity m)) in
  let st' := (add st order).2 in
  (add st order).1 = Returns ()
  ∧ num_transactions (st'.1) = S (num_transactions (st.1))
  ∧ HistoryRow.quantity <$> history (st'.1)
    = (HistoryRow.quantity <$> history (st.1)) ++ [q]
  ∧ (Z.abs (Order.quantity m) < Z.abs (Order.quantity order) →
     q = Z.abs (Order.quantity m))
  ∧ opposite (st'.1) order = remove_first m (opposite (cleared (st.1) order) order)
  ∧ own_side (st'.1) order = own_side (cleared (st.1) order) order
  ∧ (admitted (st.1) order ∉ resting (st'.1))
  ∧ (∀ x, x ∈ resting (st'.1) → Order.agent x ≠ Order.agent order).
Proof.
  destruct st as [bk l]. cbv zeta. cbn [fst]. intros Hr Hl Hc Hin.
  pose proof (reachable_book_ok _ _ Hr) as Hok. cbn [fst] in Hok.
  rewrite (add_executes _ _ _ Hl Hc Hin). cbn [fst snd].
  set (m := maker (cleared bk order) (admitted bk order)) in *.
  pose proof (cleared_shrinks bk order) as (Hb2 & Hs2 & Hc2).
  assert (book_ok (cleared bk order)) as Hok2.
  { apply (book_ok_shrinks bk); [done|done|done|lia]. }
  pose proof (execute_shrinks (cleared bk order, l) (admitted bk order) m) as Hsh.
  rewrite (execute_Returns (cleared bk order) l (admitted bk order) m Hin) in Hsh.
  cbn [fst snd] in Hsh.
  destruct Hsh as (Hb3 & Hs3 & Hc3).
  assert (book_ok (settled (cleared bk order) (admitted bk order) m)) as Hok3.
  { apply (book_ok_shrinks (cleared bk order)); [done|done|done|lia]. }
  destruct (refresh_sides_fixed _ (ok_buy _ Hok3) (ok_sell _ Hok3)) as [Hfb Hfs].
  destruct (refresh_others (settled (cleared bk order) (admitted bk order) m))
    as (_ & _ & Hnt & Hh & _ & _ & _).
  assert (∀ x, x ∈ resting (refresh_offer (refresh_bid
                 (settled (cleared bk order) (admitted bk order) m))) →
               x ∈ resting (cleared bk order)) as Hsub.
  { intros x. unfold resting. rewrite Hfb, Hfs, !elem_of_app.
    intros [Hx|Hx]; [left|right]; by eapply elem_of_sublist. }
  destruct (one_resting_order_per_agent _ _ Hr) as [_ Hfree]. cbn [fst] in Hfree.
  split; [done|]. split; [by rewrite Hnt|]. split.
  { rewrite Hh. unfold settled; simpl. by rewrite fmap_app. }
  split; [lia|]. split.
  { unfold opposite. destruct (0 <=? Order.quantity order) eqn:Hq.
    - rewrite Hfs. unfold settled; simpl. by rewrite Hq.
    - rewrite Hfb. unfold settled; simpl. by rewrite Hq. }
  split.
  { unfold own_side. destruct (0 <=? Order.quantity order) eqn:Hq.
    - rewrite Hfb. unfold settled; simpl. by rewrite Hq.
    - rewrite Hfs. unfold settled; simpl. by rewrite Hq. }
  split.
  - intros Hx. by apply (Hfree order _ (Hsub _ Hx)).
  - intros x Hx. by apply (Hfree order _ (Hsub _ Hx)).
Qed.

(** C10.  An execution takes the resting order out of its side whatever the
    executed quantity: the side is the old one less that order, the other
    side is untouched, and afterwards the book holds neither that order nor
    any other order of its agent, so nothing stands for an unfilled
    remainder.  An admission that crosses ends in such a book: what rests
    after it rested before it, and the maker's agent has no order left. *)
Theorem maker_removed_entirely product st order incoming_order book_order :
  reachable product st →
  book_order ∈ opposite (st.1) incoming_order →
  ((execute st incoming_order book_order).1 = Returns true
   ∧ opposite ((execute st incoming_order book_order).2.1) incoming_order
     = remove_first book_order (opposite (st.1) incoming_order)
   ∧ own_side ((execute st incoming_order book_order).2.1) incoming_order
     = own_side (st.1) incoming_order
   ∧ ∀ x, x ∈ resting ((execute st incoming_order book_order).2.1) →
          x ∈ resting (st.1) ∧ Order.agent x ≠ Order.agent book_order)
  ∧ (is_order_legitimate st order (0 <=? Order.quantity order) = true →
     crosses (cleared (st.1) order) (admitted (st.1) order) = true →
     maker (cleared (st.1) order) (admitted (st.1) order)
       ∈ opposite (cleared (st.1) order) order →
     ∀ x, x ∈ resting ((add st order).2.1) →
          x ∈ resting (st.1)
          ∧ Order.agent x
            ≠ Order.agent (maker (cleared (st.1) order) (admitted (st.1) order))).
Proof.
  destruct st as [bk l]. cbn [fst]. intros Hr Hin.
  pose proof (reachable_book_ok _ _ Hr) as Hok. cbn [fst] in Hok.
  assert (∀ bk0 inc m x,
            book_ok bk0 → m ∈ opposite bk0 inc →
            x ∈ resting (settled bk0 inc m) →
            x ∈ resting bk0 ∧ Order.agent x ≠ Order.agent m) as Hgone.
  { intros bk0 inc m x [_ Hag _ _] Hm. unfold opposite in Hm.
    unfold resting, settled in *; simpl.
    destruct (0 <=? Order.quantity inc).
    - rewrite (Permutation_app_comm (buy_orders bk0)) in Hag.
      rewrite (Permutation_app_comm (buy_orders bk0)).
      rewrite (Permutation_app_comm (buy_orders bk0) (sell_orders bk0)).
      rewrite (remove_first_Permutation _ _ Hm) in Hag at 1.
      rewrite (remove_first_Permutation _ _ Hm) at 2.
      simpl in Hag. apply NoDup_cons in Hag as [Hfresh _].
      intros Hx. split; [by right|].
      intros Heq. apply Hfresh. rewrite <- Heq. by apply list_elem_of_fmap_2.
    - rewrite (remove_first_Permutation _ _ Hm) in Hag at 1.
      rewrite (remove_first_Permutation _ _ Hm) at 2.
      simpl in Hag. apply NoDup_cons in Hag as [Hfresh _].
      intros Hx. split; [by right|].
      intros Heq. apply Hfresh. rewrite <- Heq. by apply list_elem_of_fmap_2. }
  split.
  - rewrite (execute_Returns _ _ _ _ Hin). cbn [fst snd].
    split; [done|]. split; [|split].
    + unfold opposite, settled; simpl. by destruct (0 <=? _).
    + unfold own_side, settled; simpl. by destruct (0 <=? _).
    + intros x. by apply Hgone.
  - intros Hl Hc Hm. rewrite (add_executes _ _ _ Hl Hc Hm). cbn [fst snd].
    pose proof (cleared_shrinks bk order) as (Hb2 & Hs2 & Hc2).
    assert (book_ok (cleared bk order)) as Hok2.
    { apply (book_ok_shrinks bk); [done|done|done|lia]. }
    set (m := maker (cleared bk order) (admitted bk order)) in *.
    pose proof (execute_shrinks (cleared bk order, l) (admitted bk order) m) as Hsh.
    rewrite (execute_Returns (cleared bk order) l (admitted bk order) m Hm) in Hsh.
    cbn [fst snd] in Hsh.
    destruct Hsh as (Hb3 & Hs3 & Hc3).
    assert (book_ok (settled (cleared bk order) (admitted bk order) m)) as Hok3.
    { apply (book_ok_shrinks (cleared bk order)); [done|done|done|lia]. }
    destruct (refresh_sides_fixed _ (ok_buy _ Hok3) (ok_sell _ Hok3)) as [Hfb Hfs].
    intros x Hx. unfold resting in Hx. rewrite Hfb, Hfs in Hx.
    destruct (Hgone (cleared bk order) (admitted bk order) m x Hok2 Hm Hx) as [Hx2 Hne].
    split; [|done].
    unfold resting in *. rewrite elem_of_app in *.
    destruct Hx2 as [?|?]; [left|right]; by eapply elem_of_sublist.
Qed.

End Claims.

(** ** The marketplace's reset *)

Section Marketplace.
Context {Agent L : Type} `{!AgentInterface Agent L}.

Local Abbreviation OrderBook := (@OrderBook Agent).

(** What [reset] assigns, and what it leaves alone. *)
Lemma reset_spec (bk : OrderBook) :
  reset bk
  = mkOrderBook (product_name bk) [] [] (no_bid (product_name bk))
      (no_offer (product_name bk)) 0 0 []
      (best_bid_history bk) (best_ask_history bk) (event_history bk).
Proof. reflexivity. Qed.

(** A book that is registered already is not rebuilt by
    [Marketplace.reset]: it goes through [OrderBook.reset]. *)
Lemma Marketplace_reset_registered (markets : gmap string OrderBook) inventories good bk :
  markets !! good = Some bk →
  Marketplace_reset markets inventories !! good = Some (reset bk).
Proof.
  intros Hbk. unfold Marketplace_reset. rewrite lookup_fmap.
  cut (foldl (λ markets keys,
                foldl (λ (markets : gmap string OrderBook) good,
                         if decide (good = "capital"%string) then markets
                         else if decide (is_Some (markets !! good)) then markets
                         else <[good := init good]> markets)
                      markets keys)
             markets inventories !! good = Some bk).
  { by intros ->. }
  revert markets Hbk. induction inventories as [|keys inventories IH]; intros markets Hbk;
    simpl; [done|].
  apply IH. clear IH. revert markets Hbk.
  induction keys as [|g keys IH]; intros markets Hbk; simpl; [done|].
  apply IH. repeat case_decide; try done.
  rewrite lookup_insert_ne; [done|]. intros ->.
  match goal with Hn : ¬ is_Some _ |- _ => apply Hn end. by rewrite Hbk.
Qed.

End Marketplace.

(** ** The book at work on the scenarios *)

Lemma reachable_fresh_run ops : reachable "G" (run fresh ops).
Proof. apply reachable_run. constructor. Qed.

(** Two offers rest, from two agents: one order each. *)
Lemma one_resting_order_per_agent_witness :
  reachable "G" two_offers
  ∧ (∀ a, (length (filter (λ x, Order.agent x = a) (resting two_offers.1)) ≤ 1)%nat)
  ∧ (∀ order x,
       x ∈ resting (cleared two_offers.1 order) → Order.agent x ≠ Order.agent order).
Proof.
  assert (reachable "G" two_offers) as Hr by apply reachable_fresh_run.
  split; [exact Hr|]. exact (one_resting_order_per_agent "G" two_offers Hr).
Defined.

(** The two offers stand in ascending order of price. *)
Lemma sides_sorted_witness :
  reachable "G" two_offers
  ∧ StronglySorted (in_order num_gtb) (buy_orders two_offers.1)
  ∧ StronglySorted (in_order num_ltb) (sell_orders two_offers.1).
Proof.
  assert (reachable "G" two_offers) as Hr by apply reachable_fresh_run.
  split; [exact Hr|]. exact (proj1 (sides_sorted "G" two_offers Hr)).
Defined.

(** Agent B sells 10 at 8 into the bid for 4 at 10: one transfer of 4
    against the price 10, one row, one event. *)
Lemma execute_settles_witness :
  Order.mk "G" (Int 10) 4 "A" (Some 0%nat)
    ∈ opposite bid_of_four.1 (order_of "B" 8 (-10))
  ∧ ∃ bk',
      execute bid_of_four (order_of "B" 8 (-10)) (Order.mk "G" (Int 10) 4 "A" (Some 0%nat))
      = (Returns true,
         (bk', transfer funds "B" ("G"%string, Int 4) ("capital"%string, Int 10) "A"))
      ∧ history bk' = [HistoryRow.mk 0 (Int 10) 4 "A" "B"]
      ∧ event_history bk' = [MarketPlaceTransaction.mk "B" "A" "G" 4 (Int 10) 0%nat]
      ∧ num_transactions bk' = 1%nat.
Proof.
  assert (Order.mk "G" (Int 10) 4 "A" (Some 0%nat)
            ∈ opposite bid_of_four.1 (order_of "B" 8 (-10))) as Hin
    by (vm_compute; constructor).
  split; [exact Hin|].
  exact (execute_settles bid_of_four.1 funds (order_of "B" 8 (-10))
           (Order.mk "G" (Int 10) 4 "A" (Some 0%nat)) Hin).
Defined.

(** Agent A, whose bid rests, bids 1000 with a capital of 100: the new
    order is dropped and the old one is gone. *)
Lemma illegitimate_order_dropped_witness :
  reachable "G" bid_rests
  ∧ is_order_legitimate bid_rests (order_of "A" 1000 1) (0 <=? 1) = false
  ∧ (add bid_rests (order_of "A" 1000 1)).1 = Returns ()
  ∧ buy_orders (add bid_rests (order_of "A" 1000 1)).2.1 = []
  ∧ sell_orders (add bid_rests (order_of "A" 1000 1)).2.1 = [].
Proof.
  assert (reachable "G" bid_rests) as Hr by apply reachable_fresh_run.
  assert (is_order_legitimate bid_rests (order_of "A" 1000 1) (0 <=? 1) = false) as Hl
    by reflexivity.
  split; [exact Hr|]. split; [exact Hl|].
  destruct (illegitimate_order_dropped "G" bid_rests (order_of "A" 1000 1) Hr Hl)
    as (Hret & _ & _ & _ & _ & Hb & Hs & _).
  split; [exact Hret|]. split; [exact Hb|exact Hs].
Defined.

(** Agent B sells 10 at 8 into the bid for 4 at 10: 4 are executed, the
    other 6 are neither matched nor resting. *)
Lemma excess_discarded_witness :
  reachable "G" bid_of_four
  ∧ is_order_legitimate bid_of_four (order_of "B" 8 (-10)) (0 <=? -10) = true
  ∧ crosses (cleared bid_of_four.1 (order_of "B" 8 (-10)))
      (admitted bid_of_four.1 (order_of "B" 8 (-10))) = true
  ∧ maker (cleared bid_of_four.1 (order_of "B" 8 (-10)))
      (admitted bid_of_four.1 (order_of "B" 8 (-10)))
    ∈ opposite (cleared bid_of_four.1 (order_of "B" 8 (-10))) (order_of "B" 8 (-10))
  ∧ (add bid_of_four (order_of "B" 8 (-10))).1 = Returns ()
  ∧ num_transactions (add bid_of_four (order_of "B" 8 (-10))).2.1 = 1%nat
  ∧ HistoryRow.quantity <$> history (add bid_of_four (order_of "B" 8 (-10))).2.1 = [4]
  ∧ buy_orders (add bid_of_four (order_of "B" 8 (-10))).2.1 = []
  ∧ sell_orders (add bid_of_four (order_of "B" 8 (-10))).2.1 = [].
Proof.
  assert (reachable "G" bid_of_four) as Hr by apply reachable_fresh_run.
  assert (is_order_legitimate bid_of_four (order_of "B" 8 (-10)) (0 <=? -10) = true)
    as Hl by reflexivity.
  assert (crosses (cleared bid_of_four.1 (order_of "B" 8 (-10)))
            (admitted bid_of_four.1 (order_of "B" 8 (-10))) = true) as Hc by reflexivity.
  assert (maker (cleared bid_of_four.1 (order_of "B" 8 (-10)))
            (admitted bid_of_four.1 (order_of "B" 8 (-10)))
          ∈ opposite (cleared bid_of_four.1 (order_of "B" 8 (-10)))
              (order_of "B" 8 (-10))) as Hin by (vm_compute; constructor).
  repeat (split; [assumption|]).
  destruct (excess_discarded "G" bid_of_four (order_of "B" 8 (-10)) Hr Hl Hc Hin)
    as (Hret & Hn & Hq & _ & Hopp & Hown & _).
  split; [exact Hret|]. split; [exact Hn|]. split; [exact Hq|].
  split; [exact Hopp|exact Hown].
Defined.

(** Agent B sells 1 at 8 into the bid for 4 at 10: the bid is gone whole,
    though 1 of its 4 was executed. *)
Lemma maker_removed_entirely_witness :
  reachable "G" bid_of_four
  ∧ Order.mk "G" (Int 10) 4 "A" (Some 0%nat)
      ∈ opposite bid_of_four.1 (order_of "B" 8 (-1))
  ∧ (execute bid_of_four (order_of "B" 8 (-1))
       (Order.mk "G" (Int 10) 4 "A" (Some 0%nat))).1 = Returns true
  ∧ buy_orders (execute bid_of_four (order_of "B" 8 (-1))
                  (Order.mk "G" (Int 10) 4 "A" (Some 0%nat))).2.1 = []
  ∧ sell_orders (execute bid_of_four (order_of "B" 8 (-1))
                   (Order.mk "G" (Int 10) 4 "A" (Some 0%nat))).2.1 = [].
Proof.
  assert (reachable "G" bid_of_four) as Hr by apply reachable_fresh_run.
  assert (Order.mk "G" (Int 10) 4 "A" (Some 0%nat)
            ∈ opposite bid_of_four.1 (order_of "B" 8 (-1))) as Hin
    by (vm_compute; constructor).
  split; [exact Hr|]. split; [exact Hin|].
  destruct (maker_removed_entirely "G" bid_of_four (order_of "B" 8 (-1))
              (order_of "B" 8 (-1)) (Order.mk "G" (Int 10) 4 "A" (Some 0%nat)) Hr Hin)
    as [(Hret & Hopp & Hown & _) _].
  split; [exact Hret|]. split; [exact Hopp|exact Hown].
Defined.

(** ** Where the cached orders go stale *)

(** C1.  Agent A offers 1 at 10, agent B offers 1 at 11, then agent A bids
    1 at 10.  The clearing takes A's offer out, so the best offer in the
    book is B's at 11 and a bid at 10 does not reach it.  The cached best
    offer is still A's at 10: the bid is handed to [execute] with it, a
    transfer from A to A is made, [remove] raises [ValueError], and the bid
    rests on no side. *)
Theorem stale_offer_crossed :
  sell_orders (cleared two_offers.1 (order_of "A" 10 1))
    = [Order.mk "G" (Int 11) (-1) "B" (Some 1%nat)]
  ∧ lowest_offer_order (cleared two_offers.1 (order_of "A" 10 1))
    = Order.mk "G" (Int 10) (-1) "A" (Some 0%nat)
  ∧ is_order_legitimate two_offers (order_of "A" 10 1) (0 <=? 1) = true
  ∧ (add two_offers (order_of "A" 10 1)).1 = Raises ValueError
  ∧ (add two_offers (order_of "A" 10 1)).2.2
    = transfer two_offers.2 "A" ("capital"%string, Int 10) ("G"%string, Int 1) "A"
  ∧ buy_orders (add two_offers (order_of "A" 10 1)).2.1 = []
  ∧ sell_orders (add two_offers (order_of "A" 10 1)).2.1
    = [Order.mk "G" (Int 11) (-1) "B" (Some 1%nat)].
Proof. repeat split. Qed.

(** The same stale offer, met by a third agent.  A's offer at 10 left the
    book with A's rejected bid, B's offer at 11 is the only one resting, and
    agent C bids 1 at 12: C pays 10 to A for 1 of G, [remove] raises, and
    B's offer is still there. *)
Lemma stale_offer_wrong_counterparty :
  sell_orders offer_withdrawn.1 = [Order.mk "G" (Int 11) (-1) "B" (Some 1%nat)]
  ∧ lowest_offer_order offer_withdrawn.1 = Order.mk "G" (Int 10) (-1) "A" (Some 0%nat)
  ∧ (add offer_withdrawn (order_of "C" 12 1)).1 = Raises ValueError
  ∧ (add offer_withdrawn (order_of "C" 12 1)).2.2 "C" "capital" = 90
  ∧ (add offer_withdrawn (order_of "C" 12 1)).2.2 "A" "capital" = 110
  ∧ (add offer_withdrawn (order_of "C" 12 1)).2.2 "B" "capital" = 100
  ∧ resting (add offer_withdrawn (order_of "C" 12 1)).2.1
    = [Order.mk "G" (Int 11) (-1) "B" (Some 1%nat)].
Proof. repeat split. Qed.

(** C6.  Agent A bids 3 at 10 and agent B sells 3 into it.  The buy side
    is empty afterwards, the cached best bid is still A's order at 10
    and not the placeholder, and the snapshot of the next step
    records 10.  A side that is not empty can be behind its cached order
    as well: when A's offer at 10 leaves the book with A's rejected bid,
    B's offer at 11 is the lowest one resting and the cached best offer is
    still A's. *)
Theorem stale_bid_after_fill :
  (buy_orders bid_taken.1 = []
   ∧ highest_bid_order bid_taken.1 = Order.mk "G" (Int 10) 3 "A" (Some 0%nat)
   ∧ Order.price (highest_bid_order bid_taken.1) ≠ NegInf
   ∧ best_bid_history (step bid_taken.1) = [Int 10])
  ∧ (sell_orders offer_withdrawn.1 = [Order.mk "G" (Int 11) (-1) "B" (Some 1%nat)]
     ∧ lowest_offer_order offer_withdrawn.1
       = Order.mk "G" (Int 10) (-1) "A" (Some 0%nat)
     ∧ best_ask_history (step offer_withdrawn.1) = [Int 10]).
Proof. repeat split. discriminate. Qed.

(** C9.  A trade and a snapshot, then a reset: the sides, the cached
    orders, the counters and the history are as in a new book, while
    the two time series and the event log still hold the entries
    made before the reset.  The marketplace's reset, finding the book
    registered, does this and nothing more to it. *)
Theorem reset_keeps_series :
  buy_orders (reset traded_and_stepped.1) = []
  ∧ sell_orders (reset traded_and_stepped.1) = []
  ∧ get_full_orderbook (reset traded_and_stepped.1) = []
  ∧ Order.price (highest_bid_order (reset traded_and_stepped.1)) = NegInf
  ∧ Order.price (lowest_offer_order (reset traded_and_stepped.1)) = PosInf
  ∧ order_count (reset traded_and_stepped.1) = 0%nat
  ∧ num_transactions (reset traded_and_stepped.1) = 0%nat
  ∧ history (reset traded_and_stepped.1) = []
  ∧ best_bid_history (reset traded_and_stepped.1) = [Int 10]
  ∧ best_ask_history (reset traded_and_stepped.1) = [PosInf]
  ∧ event_history (reset traded_and_stepped.1)
    = [MarketPlaceTransaction.mk "B" "A" "G" 3 (Int 10) 0%nat]
  ∧ Marketplace_reset {[ "G"%string := traded_and_stepped.1 ]}
      [["capital"%string; "G"%string]; ["capital"%string; "G"%string]] !! "G"%string
    = Some (reset traded_and_stepped.1).
Proof. repeat split. Qed.

(** * Further properties of the book *)

Section BookRuns.
Context {Agent L : Type} `{!AgentInterface Agent L}.

Local Abbreviation Order := (Order.t Agent).
Local Abbreviation OrderBook := (@OrderBook Agent).
Local Abbreviation State := (@State Agent L).

Implicit Types (bk : OrderBook) (l : L) (st : State) (order : Order).

(** The four ways through [add], side by side. *)
Lemma add_cases bk l order :
  (is_order_legitimate (bk, l) order (0 <=? Order.quantity order) = false
   ∧ add (bk, l) order = (Returns (), (cleared bk order, l)))
  ∨ (is_order_legitimate (bk, l) order (0 <=? Order.quantity order) = true
     ∧ crosses (cleared bk order) (admitted bk order) = false
     ∧ add (bk, l) order
       = (Returns (),
          (refresh_offer (refresh_bid
             (if 0 <=? Order.quantity order
              then set_buy_orders (cleared bk order)
                     (buy_orders (cleared bk order) ++ [admitted bk order])
              else set_sell_orders (cleared bk order)
                     (sell_orders (cleared bk order) ++ [admitted bk order]))),
           l)))
  ∨ (is_order_legitimate (bk, l) order (0 <=? Order.quantity order) = true
     ∧ crosses (cleared bk order) (admitted bk order) = true
     ∧ maker (cleared bk order) (admitted bk order)
         ∈ opposite (cleared bk order) (admitted bk order)
     ∧ add (bk, l) order
       = (Returns (),
          (refresh_offer (refresh_bid
             (settled (cleared bk order) (admitted bk order)
                (maker (cleared bk order) (admitted bk order)))),
           paid (cleared bk order) l (admitted bk order)
             (maker (cleared bk order) (admitted bk order)))))
  ∨ (is_order_legitimate (bk, l) order (0 <=? Order.quantity order) = true
     ∧ crosses (cleared bk order) (admitted bk order) = true
     ∧ (maker (cleared bk order) (admitted bk order)
          ∉ opposite (cleared bk order) (admitted bk order))
     ∧ add (bk, l) order
       = (Raises ValueError,
          (cleared bk order,
           paid (cleared bk order) l (admitted bk order)
             (maker (cleared bk order) (admitted bk order))))).
Proof.
  destruct (is_order_legitimate (bk, l) order (0 <=? Order.quantity order)) eqn:Hl.
  2:{ left. split; [done|]. by apply add_dropped. }
  right.
  destruct (crosses (cleared bk order) (admitted bk order)) eqn:Hc.
  2:{ left. repeat split. by apply add_rests. }
  right.
  destruct (decide (maker (cleared bk order) (admitted bk order)
                      ∈ opposite (cleared bk order) (admitted bk order))) as [Hin|Hin].
  - left. repeat split; [done|]. by apply add_executes.
  - right. repeat split; [done|]. by apply add_raises.
Qed.

Lemma legitimate_nonzero st order is_buy_order :
  is_order_legitimate st order is_buy_order = true → Order.quantity order ≠ 0.
Proof.
  destruct st as [bk l]. unfold is_order_legitimate.
  destruct (Z.eqb_spec (Order.quantity order) 0); [done|done].
Qed.

Lemma best_of_cases (side : list Order) (placeholder : Order) :
  best_of side placeholder = placeholder ∨ best_of side placeholder ∈ side.
Proof. destruct side as [|x side]; [by left|right; by left]. Qed.


(** X1.  Snapshots touch nothing but the two time series: after [n] calls
    of [step] in a row the sides, the cached orders, the counters, the
    history, the event log and the ledger are as before, and each series
    has grown by [n] copies of the cached price. *)
Theorem steps_only_grow_series st n :
  let st' := run st (replicate n OpStep) in
  buy_orders (st'.1) = buy_orders (st.1)
  ∧ sell_orders (st'.1) = sell_orders (st.1)
  ∧ highest_bid_order (st'.1) = highest_bid_order (st.1)
  ∧ lowest_offer_order (st'.1) = lowest_offer_order (st.1)
  ∧ order_count (st'.1) = order_count (st.1)
  ∧ num_transactions (st'.1) = num_transactions (st.1)
  ∧ history (st'.1) = history (st.1)
  ∧ event_history (st'.1) = event_history (st.1)
  ∧ st'.2 = st.2
  ∧ best_bid_history (st'.1)
    = best_bid_history (st.1) ++ replicate n (Order.price (highest_bid_order (st.1)))
  ∧ best_ask_history (st'.1)
    = best_ask_history (st.1) ++ replicate n (Order.price (lowest_offer_order (st.1))).
Proof.
  cbv zeta. revert st. induction n as [|n IH]; intros st.
  - simpl. by rewrite !app_nil_r.
  - change (run st (replicate (S n) OpStep))
      with (run (step st.1, st.2) (replicate n OpStep)).
    destruct (IH (step st.1, st.2))
      as (-> & -> & -> & -> & -> & -> & -> & -> & -> & -> & ->).
    simpl. by rewrite <- !(assoc_L (++)).
Qed.

End BookRuns.

(** ** Quantities and the numbering of trades *)

Section Tally.
Context {Agent L : Type} `{!AgentInterface Agent L}.

Local Abbreviation Order := (Order.t Agent).
Local Abbreviation OrderBook := (@OrderBook Agent).
Local Abbreviation State := (@State Agent L).

Implicit Types (bk : OrderBook) (l : L) (st : State) (order : Order).

Lemma book_tally_init product : book_tally (init product).
Proof.
  split; simpl; try done; try lia; by intros ? ?%elem_of_nil.
Qed.

Lemma book_tally_reset bk : book_tally bk → book_tally (reset bk).
Proof.
  intros [? ? ? ? ? ? ? Hev].
  split; simpl; try done; try lia; by intros ? ?%elem_of_nil.
Qed.

Lemma book_tally_step bk : book_tally bk → book_tally (step bk).
Proof. intros [? ? ? ? ? ? ? ?]. by split. Qed.

Lemma book_tally_cleared bk order : book_tally bk → book_tally (cleared bk order).
Proof.
  intros [Hb Hs ? ? ? ? ? ?]. split; simpl; try done.
  - intros x Hx. apply Hb. eapply elem_of_sublist; [done|apply remove_owned_sublist].
  - intros x Hx. apply Hs. eapply elem_of_sublist; [done|apply remove_owned_sublist].
Qed.

Lemma book_tally_refresh bk : book_tally bk → book_tally (refresh_offer (refresh_bid bk)).
Proof.
  intros [Hb Hs Hbid Hoff ? ? ? ?].
  rewrite refresh_offer_spec, refresh_bid_spec. split; simpl; try done.
  - intros x Hx. apply Hb. by apply sorted_by_elem_of in Hx.
  - intros x Hx. apply Hs. by apply sorted_by_elem_of in Hx.
  - destruct (best_of_cases (sorted_descending (buy_orders bk)) (highest_bid_order bk))
      as [->|Hin]; [done|]. apply Hb. by apply sorted_by_elem_of in Hin.
  - destruct (best_of_cases (sorted_ascending (sell_orders bk)) (lowest_offer_order bk))
      as [->|Hin]; [done|]. apply Hs. by apply sorted_by_elem_of in Hin.
Qed.

Lemma book_tally_rests bk order :
  book_tally bk → Order.quantity order ≠ 0 →
  book_tally (if 0 <=? Order.quantity order
              then set_buy_orders bk (buy_orders bk ++ [order])
              else set_sell_orders bk (sell_orders bk ++ [order])).
Proof.
  intros [Hb Hs ? ? ? ? ? ?] Hq.
  destruct (Z.leb_spec 0 (Order.quantity order)); split; simpl; try done.
  - intros x [Hx | ->%list_elem_of_singleton]%elem_of_app; [by apply Hb|lia].
  - intros x [Hx | ->%list_elem_of_singleton]%elem_of_app; [by apply Hs|lia].
Qed.

Lemma book_tally_settled bk incoming_order book_order :
  book_tally bk →
  Order.quantity incoming_order ≠ 0 → Order.quantity book_order ≠ 0 →
  book_tally (settled bk incoming_order book_order).
Proof.
  intros [Hb Hs ? ? Hn Hids Hrows Hev] Hq Hm. unfold settled. split; simpl; try done.
  - intros x Hx. apply Hb. destruct (0 <=? _); [done|].
    eapply elem_of_sublist; [done|apply remove_first_sublist].
  - intros x Hx. apply Hs. destruct (0 <=? _); [|done].
    eapply elem_of_sublist; [done|apply remove_first_sublist].
  - rewrite length_app. simpl. lia.
  - rewrite fmap_app, length_app, Hids. simpl.
    rewrite Nat.add_1_r, seq_S. simpl. by rewrite Hn.
  - intros r [Hr | ->%list_elem_of_singleton]%elem_of_app; [by apply Hrows|]. simpl. lia.
  - intros e [He | ->%list_elem_of_singleton]%elem_of_app; [by apply Hev|]. simpl. lia.
Qed.

Lemma maker_nonzero bk order :
  book_tally bk → Order.quantity (maker bk order) ≠ 0.
Proof.
  intros [_ _ Hbid Hoff _ _ _ _]. unfold maker. destruct (0 <=? _); lia.
Qed.

Lemma book_tally_add st order : book_tally st.1 → book_tally (add st order).2.1.
Proof.
  destruct st as [bk l]. cbn [fst]. intros Hok.
  pose proof (book_tally_cleared bk order Hok) as Hok2.
  destruct (add_cases bk l order)
    as [(_ & ->)|[(Hl & _ & ->)|[(Hl & _ & _ & ->)|(_ & _ & _ & ->)]]];
    cbn [fst snd]; try done.
  - apply book_tally_refresh.
    apply (book_tally_rests (cleared bk order) (admitted bk order) Hok2).
    by apply legitimate_nonzero in Hl.
  - apply book_tally_refresh, book_tally_settled; [done| |by apply maker_nonzero].
    by apply legitimate_nonzero in Hl.
Qed.

Lemma reachable_book_tally product st : reachable product st → book_tally st.1.
Proof.
  induction 1 as [l|st o _ IH]; [apply book_tally_init|].
  destruct o; simpl; auto using book_tally_add, book_tally_step, book_tally_reset.
Qed.

(** X3.  In every state a run reaches the trade counter is the number of
    rows of the history, the rows carry the transaction ids 0, 1, 2, ... in
    order, and every row and every event is for a quantity above zero. *)
Theorem trades_numbered product st :
  reachable product st →
  num_transactions (st.1) = length (history (st.1))
  ∧ HistoryRow.transaction_id <$> history (st.1) = seq 0 (num_transactions (st.1))
  ∧ (∀ r, r ∈ history (st.1) → 0 < HistoryRow.quantity r)
  ∧ (∀ e, e ∈ event_history (st.1) → 0 < MarketPlaceTransaction.quantity e).
Proof.
  intros [_ _ _ _ Hn Hids Hrows Hev]%reachable_book_tally.
  split; [done|]. split; [by rewrite Hn|]. by split.
Qed.

(** X5.  In every state a run reaches the buy side holds orders of
    quantity above zero only and the sell side orders of quantity below
    zero only, and an order is on one side at most. *)
Theorem sides_hold_their_sign product st :
  reachable product st →
  (∀ x, x ∈ buy_orders (st.1) → 0 < Order.quantity x)
  ∧ (∀ x, x ∈ sell_orders (st.1) → Order.quantity x < 0)
  ∧ (∀ x, x ∈ buy_orders (st.1) → x ∉ sell_orders (st.1)).
Proof.
  intros [Hb Hs _ _ _ _ _ _]%reachable_book_tally.
  split; [done|]. split; [done|].
  intros x Hx Hx'. specialize (Hb x Hx). specialize (Hs x Hx'). lia.
Qed.

(** X6.  What [get_full_orderbook] returns in a state a run reaches: the
    bids first, each for a quantity above zero, from the highest price down,
    then the offers, each for a quantity below zero, from the lowest price
    up; there are as many pairs as orders resting. *)
Theorem full_orderbook_layout product st :
  reachable product st →
  ∃ bids offers,
    get_full_orderbook (st.1) = bids ++ offers
    ∧ length bids = length (buy_orders (st.1))
    ∧ length offers = length (sell_orders (st.1))
    ∧ Forall (λ pq, 0 < pq.2) bids
    ∧ Forall (λ pq, pq.2 < 0) offers
    ∧ StronglySorted (λ a b, num_le b.1 a.1) bids
    ∧ StronglySorted (λ a b, num_le a.1 b.1) offers.
Proof.
  intros Hr.
  pose proof (reachable_book_tally _ _ Hr) as [Hb Hs _ _ _ _ _ _].
  pose proof (reachable_book_ok _ _ Hr) as [_ _ Hsb Hss].
  eexists _, _. split; [reflexivity|].
  split; [by rewrite length_fmap|]. split; [by rewrite length_fmap|].
  split; [|split; [|split]].
  - apply Forall_fmap, Forall_forall. intros x Hx. by apply Hb.
  - apply Forall_fmap, Forall_forall. intros x Hx. by apply Hs.
  - apply (StronglySorted_fmap _ (in_order num_gtb)); [|done].
    intros x y [Hlt|[Heq _]]; simpl.
    + clear -Hlt. destruct (Order.price x), (Order.price y); num_cases.
    + rewrite Heq. apply num_leb_refl.
  - apply (StronglySorted_fmap _ (in_order num_ltb)); [|done].
    intros x y [Hlt|[Heq _]]; simpl.
    + clear -Hlt. destruct (Order.price x), (Order.price y); num_cases.
    + rewrite Heq. apply num_leb_refl.
Qed.

End Tally.

(** ** Logs, errors and the cached orders *)

Section Caches.
Context {Agent L : Type} `{!AgentInterface Agent L}.

Local Abbreviation Order := (Order.t Agent).
Local Abbreviation OrderBook := (@OrderBook Agent).
Local Abbreviation State := (@State Agent L).

Implicit Types (bk : OrderBook) (l : L) (st : State) (order : Order).

Lemma refresh_sides bk :
  buy_orders (refresh_offer (refresh_bid bk)) = sorted_descending (buy_orders bk)
  ∧ sell_orders (refresh_offer (refresh_bid bk)) = sorted_ascending (sell_orders bk).
Proof. by rewrite refresh_offer_spec, refresh_bid_spec. Qed.

Lemma add_logs st order :
  event_history (st.1) `prefix_of` event_history ((add st order).2.1)
  ∧ best_bid_history ((add st order).2.1) = best_bid_history (st.1)
  ∧ best_ask_history ((add st order).2.1) = best_ask_history (st.1).
Proof.
  destruct st as [bk l]. cbn [fst].
  destruct (add_cases bk l order)
    as [(_ & ->)|[(_ & _ & ->)|[(_ & _ & _ & ->)|(_ & _ & _ & ->)]]];
    cbn [fst snd]; try done.
  - destruct (refresh_others
                (if 0 <=? Order.quantity order
                 then set_buy_orders (cleared bk order)
                        (buy_orders (cleared bk order) ++ [admitted bk order])
                 else set_sell_orders (cleared bk order)
                        (sell_orders (cleared bk order) ++ [admitted bk order])))
      as (_ & _ & _ & _ & -> & -> & ->). by destruct (0 <=? _).
  - destruct (refresh_others
                (settled (cleared bk order) (admitted bk order)
                   (maker (cleared bk order) (admitted bk order))))
      as (_ & _ & _ & _ & -> & -> & ->).
    unfold settled; simpl. split; [|done]. by apply prefix_app_r.
Qed.

(** X4.  The event log and the two time series are only ever appended
    to: over any run, resets and raising calls included, what they held
    stays in front, and each series grows by one entry for each step of the
    run and by nothing else. *)
Theorem logs_append_only st ops :
  event_history (st.1) `prefix_of` event_history ((run st ops).1)
  ∧ best_bid_history (st.1) `prefix_of` best_bid_history ((run st ops).1)
  ∧ best_ask_history (st.1) `prefix_of` best_ask_history ((run st ops).1)
  ∧ length (best_bid_history ((run st ops).1))
    = (length (best_bid_history (st.1)) + snapshots ops)%nat
  ∧ length (best_ask_history ((run st ops).1))
    = (length (best_ask_history (st.1)) + snapshots ops)%nat.
Proof.
  revert st. induction ops as [|o ops IH]; intros st.
  - simpl. by rewrite !Nat.add_0_r.
  - change (run st (o :: ops)) with (run (run_op st o) ops).
    destruct (IH (run_op st o)) as (He & Hb & Ha & Hlb & Hla).
    assert (event_history (st.1) `prefix_of` event_history ((run_op st o).1)
            ∧ best_bid_history (st.1) `prefix_of` best_bid_history ((run_op st o).1)
            ∧ best_ask_history (st.1) `prefix_of` best_ask_history ((run_op st o).1)
            ∧ (length (best_bid_history ((run_op st o).1)) + snapshots ops
               = length (best_bid_history (st.1)) + snapshots (o :: ops))%nat
            ∧ (length (best_ask_history ((run_op st o).1)) + snapshots ops
               = length (best_ask_history (st.1)) + snapshots (o :: ops))%nat)
      as (He' & Hb' & Ha' & Hlb' & Hla').
    { destruct o; simpl; try done.
      - destruct (add_logs st order) as (? & -> & ->). done.
      - rewrite !length_app. simpl.
        repeat split; try done; try lia; by apply prefix_app_r. }
    split; [by etrans|]. split; [by etrans|]. split; [by etrans|].
    split; congruence.
Qed.




(** The head of a side in order is its best price. *)
Lemma head_best_bid (side : list Order) (placeholder x : Order) :
  StronglySorted (in_order num_gtb) side → x ∈ side →
  num_le (Order.price x) (Order.price (best_of side placeholder)).
Proof.
  intros Hs Hx. destruct side as [|y side]; [by apply elem_of_nil in Hx|].
  apply StronglySorted_inv in Hs as [_ Hy]. rewrite Forall_forall in Hy.
  change (best_of (y :: side) placeholder) with y.
  apply elem_of_cons in Hx as [->|Hx]; [apply num_leb_refl|].
  destruct (Hy x Hx) as [Hlt|[Heq _]].
  - clear -Hlt. destruct (Order.price x), (Order.price y); num_cases.
  - rewrite Heq. apply num_leb_refl.
Qed.

Lemma head_best_offer (side : list Order) (placeholder x : Order) :
  StronglySorted (in_order num_ltb) side → x ∈ side →
  num_le (Order.price (best_of side placeholder)) (Order.price x).
Proof.
  intros Hs Hx. destruct side as [|y side]; [by apply elem_of_nil in Hx|].
  apply StronglySorted_inv in Hs as [_ Hy]. rewrite Forall_forall in Hy.
  change (best_of (y :: side) placeholder) with y.
  apply elem_of_cons in Hx as [->|Hx]; [apply num_leb_refl|].
  destruct (Hy x Hx) as [Hlt|[Heq _]].
  - clear -Hlt. destruct (Order.price x), (Order.price y); num_cases.
  - rewrite Heq. apply num_leb_refl.
Qed.


End Caches.

(** ** Matching against the best resting order *)

Section Matching.
Context {Agent L : Type} `{!AgentInterface Agent L}.

Local Abbreviation Order := (Order.t Agent).
Local Abbreviation OrderBook := (@OrderBook Agent).
Local Abbreviation State := (@State Agent L).

Implicit Types (bk : OrderBook) (l : L) (st : State) (order : Order).

(** A legitimate order that does not cross, in full. *)
Lemma add_rests_unmatched product st order :
  reachable product st →
  is_order_legitimate st order (0 <=? Order.quantity order) = true →
  crosses (cleared (st.1) order) (admitted (st.1) order) = false →
  (add st order).1 = Returns ()
  ∧ (add st order).2.2 = st.2
  ∧ num_transactions ((add st order).2.1) = num_transactions (st.1)
  ∧ history ((add st order).2.1) = history (st.1)
  ∧ event_history ((add st order).2.1) = event_history (st.1)
  ∧ own_side ((add st order).2.1) order
    ≡ₚ admitted (st.1) order :: own_side (cleared (st.1) order) order
  ∧ opposite ((add st order).2.1) order = opposite (cleared (st.1) order) order.
Proof.
  destruct st as [bk l]. cbn [fst snd]. intros Hr Hl Hc.
  pose proof (reachable_book_ok _ _ Hr) as Hok. cbn [fst] in Hok.
  pose proof (cleared_shrinks bk order) as (Hb2 & Hs2 & Hc2).
  assert (book_ok (cleared bk order)) as [_ _ Hsb Hss].
  { apply (book_ok_shrinks bk); [done|done|done|lia]. }
  rewrite (add_rests _ _ _ Hl Hc). cbn [fst snd].
  set (X := if 0 <=? Order.quantity order
            then set_buy_orders (cleared bk order)
                   (buy_orders (cleared bk order) ++ [admitted bk order])
            else set_sell_orders (cleared bk order)
                   (sell_orders (cleared bk order) ++ [admitted bk order])).
  destruct (refresh_others X) as (_ & _ & -> & -> & _ & _ & ->).
  destruct (refresh_sides X) as [Hfb Hfs].
  unfold own_side, opposite. rewrite Hfb, Hfs. unfold X.
  destruct (0 <=? Order.quantity order); simpl.
  - repeat split; try done.
    + unfold sorted_descending. rewrite sorted_by_Permutation.
      by rewrite <- Permutation_cons_append.
    + by apply sorted_by_fixed; [apply num_ltb_strict|].
  - repeat split; try done.
    + unfold sorted_ascending. rewrite sorted_by_Permutation.
      by rewrite <- Permutation_cons_append.
    + by apply sorted_by_fixed; [apply num_gtb_strict|].
Qed.

(** X10.  A legitimate order that does not pass the test against the
    cached order of the opposite side rests: [add] returns, the ledger, the
    trade counter, the history and the event log are as before, the order
    with its id joins its own side, and the opposite side is as the
    clearing left it. *)
Theorem uncrossed_order_rests product st order :
  reachable product st →
  is_order_legitimate st order (0 <=? Order.quantity order) = true →
  crosses (cleared (st.1) order) (admitted (st.1) order) = false →
  (add st order).1 = Returns ()
  ∧ (add st order).2.2 = st.2
  ∧ num_transactions ((add st order).2.1) = num_transactions (st.1)
  ∧ history ((add st order).2.1) = history (st.1)
  ∧ event_history ((add st order).2.1) = event_history (st.1)
  ∧ own_side ((add st order).2.1) order
    ≡ₚ admitted (st.1) order :: own_side (cleared (st.1) order) order
  ∧ opposite ((add st order).2.1) order = opposite (cleared (st.1) order) order.
Proof. exact (add_rests_unmatched product st order). Qed.

(** X9.  On a book whose cached orders are up to date, a legitimate order
    of an agent with no order resting on the opposite side is matched
    against the best resting order of that side and nothing else: [add]
    returns; when the side is empty, or the price does not reach its head
    (a buy below the lowest offer, a sell above the highest bid), the order
    rests and the side is untouched; otherwise the head, which no other
    order of the side beats on price, is taken out, and one row is recorded
    at the head's price for [min(|incoming|, |resting|)]. *)
Theorem fresh_book_matches_best product st order :
  reachable product st →
  caches_fresh (st.1) →
  is_order_legitimate st order (0 <=? Order.quantity order) = true →
  (∀ x, x ∈ opposite (st.1) order → Order.agent x ≠ Order.agent order) →
  (add st order).1 = Returns ()
  ∧ match opposite (st.1) order with
    | [] =>
        opposite ((add st order).2.1) order = []
        ∧ num_transactions ((add st order).2.1) = num_transactions (st.1)
        ∧ admitted (st.1) order ∈ own_side ((add st order).2.1) order
    | best :: rest =>
        (∀ x, x ∈ rest →
              if 0 <=? Order.quantity order
              then num_le (Order.price best) (Order.price x)
              else num_le (Order.price x) (Order.price best))
        ∧ if (if 0 <=? Order.quantity order
              then num_geb (Order.price order) (Order.price best)
              else num_leb (Order.price order) (Order.price best))
          then opposite ((add st order).2.1) order = rest
               ∧ num_transactions ((add st order).2.1) = S (num_transactions (st.1))
               ∧ history ((add st order).2.1)
                 = history (st.1)
                   ++ [HistoryRow.mk (num_transactions (st.1)) (Order.price best)
                         (Z.min (Z.abs (Order.quantity order))
                            (Z.abs (Order.quantity best)))
                         (name (if 0 <=? Order.quantity order
                                then Order.agent order else Order.agent best))
                         (name (if 0 <=? Order.quantity order
                                then Order.agent best else Order.agent order))]
          else opposite ((add st order).2.1) order = best :: rest
               ∧ num_transactions ((add st order).2.1) = num_transactions (st.1)
               ∧ admitted (st.1) order ∈ own_side ((add st order).2.1) order
    end.
Proof.
  destruct st as [bk l]. cbn [fst snd]. intros Hr [Hfb Hfs] Hl Hfree.
  pose proof (reachable_book_ok _ _ Hr) as Hok. cbn [fst] in Hok.
  pose proof Hok as [_ Hag Hsb Hss].
  pose proof (cleared_shrinks bk order) as (Hb2 & Hs2 & Hc2).
  assert (book_ok (cleared bk order)) as Hok2.
  { apply (book_ok_shrinks bk); [done|done|done|lia]. }
  destruct (cleared_filter bk order Hag) as [Hcb Hcs].
  assert (opposite (cleared bk order) order = opposite bk order) as Hopp.
  { unfold opposite in *. destruct (0 <=? Order.quantity order).
    - rewrite Hcs. by apply filter_other_id.
    - rewrite Hcb. by apply filter_other_id. }
  assert (maker (cleared bk order) (admitted bk order)
          = best_of (opposite bk order)
              (maker (cleared bk order) (admitted bk order))) as Hmaker.
  { unfold maker, opposite, admitted; simpl.
    by destruct (0 <=? Order.quantity order). }
  assert (crosses (cleared bk order) (admitted bk order)
          = negb (length (opposite bk order) =? 0)%nat
            && (if 0 <=? Order.quantity order
                then num_geb (Order.price order)
                       (Order.price (maker (cleared bk order) (admitted bk order)))
                else num_leb (Order.price order)
                       (Order.price (maker (cleared bk order) (admitted bk order)))))
    as Hcross.
  { rewrite <- Hopp. unfold crosses, maker, opposite, admitted; simpl.
    by destruct (0 <=? Order.quantity order). }
  assert (∀ X, sell_orders X `sublist_of` sell_orders bk →
               buy_orders X `sublist_of` buy_orders bk →
               opposite (refresh_offer (refresh_bid X)) order = opposite X order)
    as Hkeep.
  { intros X HsX HbX.
    destruct (refresh_sides_fixed X) as [HfbX HfsX];
      [by eapply StronglySorted_sublist|by eapply StronglySorted_sublist|].
    unfold opposite. by rewrite HfbX, HfsX. }
  destruct (opposite bk order) as [|best rest] eqn:Hside.
  - (* nothing rests on the opposite side *)
    assert (crosses (cleared bk order) (admitted bk order) = false) as Hc
      by by rewrite Hcross.
    destruct (add_rests_unmatched product (bk, l) order Hr Hl Hc)
      as (Hret & _ & Hn & _ & _ & Hown & Ho).
    cbn [fst snd] in *. split; [done|]. split; [by rewrite Ho, Hopp|].
    split; [done|]. rewrite Hown. by left.
  - (* the head of the side is the cached order *)
    change (best_of (best :: rest) (maker (cleared bk order) (admitted bk order)))
      with best in Hmaker.
    rewrite Hmaker in Hcross. cbn [length Nat.eqb negb andb] in Hcross.
    assert (∀ x, x ∈ rest →
                 if 0 <=? Order.quantity order
                 then num_le (Order.price best) (Order.price x)
                 else num_le (Order.price x) (Order.price best)) as Hbest.
    { intros x Hx. unfold opposite in Hside.
      destruct (0 <=? Order.quantity order).
      - rewrite Hside in Hss.
        apply (head_best_offer (best :: rest) best x Hss). by right.
      - rewrite Hside in Hsb.
        apply (head_best_bid (best :: rest) best x Hsb). by right. }
    destruct (if 0 <=? Order.quantity order
              then num_geb (Order.price order) (Order.price best)
              else num_leb (Order.price order) (Order.price best)) eqn:Hprice.
    + (* the price reaches the head: one execution against it *)
      assert (maker (cleared bk order) (admitted bk order)
                ∈ opposite (cleared bk order) (admitted bk order)) as Hin.
      { rewrite Hmaker.
        change (opposite (cleared bk order) (admitted bk order))
          with (opposite (cleared bk order) order).
        rewrite Hopp. by left. }
      rewrite (add_executes _ _ _ Hl Hcross Hin). cbn [fst snd]. rewrite Hmaker.
      split; [done|]. split; [done|].
      destruct (refresh_others (settled (cleared bk order) (admitted bk order) best))
        as (_ & _ & -> & -> & _ & _ & _).
      rewrite Hkeep.
      * split; [|split].
        -- unfold opposite, settled in *. cbn [sell_orders buy_orders].
           change (Order.quantity (admitted bk order)) with (Order.quantity order) in *.
           destruct (0 <=? Order.quantity order); rewrite Hopp; cbn [remove_first];
             by case_decide.
        -- done.
        -- unfold settled; simpl. by destruct (0 <=? Order.quantity order).
      * unfold settled; simpl. destruct (0 <=? _); [|done].
        etrans; [apply remove_first_sublist|done].
      * unfold settled; simpl. destruct (0 <=? _); [done|].
        etrans; [apply remove_first_sublist|done].
    + (* the price stops short of the head: the order rests *)
      destruct (add_rests_unmatched product (bk, l) order Hr Hl Hcross)
        as (Hret & _ & Hn & _ & _ & Hown & Ho).
      cbn [fst snd] in *. split; [done|]. split; [done|].
      split; [by rewrite Ho, Hopp|]. split; [done|]. rewrite Hown. by left.
Qed.

End Matching.

(** * The marketplace *)

Section MarketplaceFacts.
Context {Agent L : Type} `{!AgentInterface Agent L}.

Local Abbreviation Order := (Order.t Agent).
Local Abbreviation OrderBook := (@OrderBook Agent).
Local Abbreviation Market := (@Market Agent L).

Implicit Types (bk : OrderBook) (l : L) (mk : Market) (order : Order)
  (markets : gmap string OrderBook).

(** *** Reset *)

Lemma Marketplace_reset_unfold markets inventories :
  Marketplace_reset markets inventories
  = reset <$> foldl register_good markets (concat inventories).
Proof.
  unfold Marketplace_reset. f_equal.
  revert markets. induction inventories as [|keys inventories IH]; intros markets;
    simpl; [done|].
  by rewrite foldl_app, <- IH.
Qed.

Lemma register_goods_kept markets goods g bk :
  markets !! g = Some bk → foldl register_good markets goods !! g = Some bk.
Proof.
  revert markets. induction goods as [|k goods IH]; intros markets Hbk; simpl; [done|].
  apply IH. unfold register_good. repeat case_decide; try done.
  rewrite lookup_insert_ne; [done|]. intros ->.
  match goal with Hn : ¬ is_Some _ |- _ => apply Hn end. by rewrite Hbk.
Qed.

Lemma register_goods_new markets goods g :
  markets !! g = None →
  foldl register_good markets goods !! g
  = if decide (g ∈ goods ∧ g ≠ "capital"%string) then Some (init g) else None.
Proof.
  revert markets. induction goods as [|k goods IH]; intros markets Hg; cbn [foldl].
  - rewrite decide_False; [done|]. by intros [?%elem_of_nil _].
  - destruct (decide (k = g ∧ g ≠ "capital"%string)) as [[-> Hcap]|Hother].
    + rewrite decide_True by (split; [by left|done]).
      apply register_goods_kept. unfold register_good.
      rewrite decide_False by done. rewrite decide_False.
      * apply lookup_insert_eq.
      * rewrite Hg. by intros [? ?].
    + rewrite IH.
      * apply decide_ext. split; intros [Hin Hcap]; (split; [|done]).
        -- by right.
        -- apply elem_of_cons in Hin as [->|?]; [|done]. by destruct Hother.
      * unfold register_good.
        destruct (decide (k = "capital"%string)) as [|Hk]; [done|].
        destruct (decide (is_Some (markets !! k))); [done|].
        rewrite lookup_insert_ne; [done|]. intros ->. apply Hother. by split.
Qed.

Lemma register_goods_lookup markets goods g :
  foldl register_good markets goods !! g
  = match markets !! g with
    | Some bk => Some bk
    | None => if decide (g ∈ goods ∧ g ≠ "capital"%string) then Some (init g) else None
    end.
Proof.
  destruct (markets !! g) as [bk|] eqn:Hg;
    [by apply register_goods_kept|by apply register_goods_new].
Qed.

(** The books after a reset, good by good. *)
Lemma reset_registers_goods markets inventories g :
  (is_Some (Marketplace_reset markets inventories !! g)
   ↔ is_Some (markets !! g) ∨ (g ≠ "capital"%string ∧ ∃ keys, keys ∈ inventories ∧ g ∈ keys))
  ∧ (∀ bk, Marketplace_reset markets inventories !! g = Some bk →
           get_full_orderbook bk = []
           ∧ highest_bid_order bk = no_bid (product_name bk)
           ∧ lowest_offer_order bk = no_offer (product_name bk)
           ∧ order_count bk = 0%nat
           ∧ num_transactions bk = 0%nat
           ∧ history bk = []
           ∧ (markets !! g = None → bk = init g)).
Proof.
  rewrite Marketplace_reset_unfold, lookup_fmap, register_goods_lookup.
  assert (g ∈ concat inventories ↔ ∃ keys, keys ∈ inventories ∧ g ∈ keys) as Hin.
  { rewrite list_elem_of_In, in_concat. setoid_rewrite list_elem_of_In. done. }
  split.
  - destruct (markets !! g) as [bk0|]; simpl.
    + split; [by left; eexists|by eexists].
    + case_decide as Hg; simpl.
      * split; [|by eexists]. intros _. right. destruct Hg. split; [done|by apply Hin].
      * split; [by intros [? ?]|].
        intros [[? ?]|[? ?]]; [done|]. exfalso. apply Hg. split; [by apply Hin|done].
  - intros bk Hbk.
    destruct (markets !! g) as [bk0|]; simpl in Hbk.
    + injection Hbk as <-. by repeat split.
    + case_decide; simpl in Hbk; [|done]. injection Hbk as <-. by repeat split.
Qed.


(** *** Dispatch *)

(** The dispatch, case by case. *)
Lemma dispatch_is_add mk agent a :
  (submitted agent a = None → Marketplace_execute mk agent a = (Some TypeError, mk))
  ∧ (∀ order, submitted agent a = Some order →
       match mk.1 !! Order.good order with
       | None =>
           Marketplace_execute mk agent a = (Some (KeyError (Order.good order)), mk)
       | Some bk =>
           Marketplace_execute mk agent a
           = (match (add (bk, mk.2) order).1 with
              | Returns _ => None
              | Raises e => Some (BookError e)
              end,
              (<[Order.good order := (add (bk, mk.2) order).2.1]> (mk.1),
               (add (bk, mk.2) order).2.2))
       end).
Proof.
  split.
  - by destruct a.
  - intros order Hsub.
    assert (Marketplace_execute mk agent a
            = match add_to_market mk (Order.good order) order with
              | inr e => (Some e, mk)
              | inl (Returns _, mk') => (None, mk')
              | inl (Raises e, mk') => (Some (BookError e), mk')
              end) as ->.
    { destruct a; simpl in Hsub; try done; by injection Hsub as <-. }
    unfold add_to_market.
    destruct (mk.1 !! Order.good order) as [bk|]; [|done].
    by destruct (add (bk, mk.2) order) as [[[]|e] [bk' l']].
Qed.


(** X12.  A dispatch never adds or removes a book, and it leaves the book
    of every good other than the order's as it is. *)
Theorem Marketplace_execute_frame mk agent a g :
  (is_Some ((Marketplace_execute mk agent a).2.1 !! g) ↔ is_Some (mk.1 !! g))
  ∧ (Order.good <$> submitted agent a ≠ Some g →
     (Marketplace_execute mk agent a).2.1 !! g = mk.1 !! g).
Proof.
  destruct (dispatch_is_add mk agent a) as [Hnone Hsome].
  destruct (submitted agent a) as [order|] eqn:Hsub.
  2:{ by rewrite (Hnone eq_refl). }
  specialize (Hsome order eq_refl).
  destruct (mk.1 !! Order.good order) as [bk|] eqn:Hbk; rewrite Hsome; cbn [fst snd].
  2:{ done. }
  split.
  - destruct (decide (Order.good order = g)) as [<-|Hg].
    + rewrite lookup_insert_eq, Hbk. split; by eexists.
    + by rewrite lookup_insert_ne.
  - simpl. intros Hg. rewrite lookup_insert_ne; [done|]. congruence.
Qed.

(** *** What a marketplace maintains *)

Lemma resting_add bk l order x :
  x ∈ resting ((add (bk, l) order).2.1) → x ∈ resting bk ∨ x = admitted bk order.
Proof.
  pose proof (cleared_shrinks bk order) as (Hb2 & Hs2 & _).
  assert (∀ X, buy_orders X `sublist_of` buy_orders (cleared bk order) →
               sell_orders X `sublist_of` sell_orders (cleared bk order) →
               x ∈ resting X → x ∈ resting bk) as Hsub.
  { intros X Hb Hs. unfold resting. rewrite !elem_of_app.
    intros [Hx|Hx]; [left|right];
      (eapply elem_of_sublist; [exact Hx|by etrans]). }
  destruct (add_cases bk l order)
    as [(_ & ->)|[(_ & _ & ->)|[(_ & _ & _ & ->)|(_ & _ & _ & ->)]]];
    cbn [fst snd].
  - intros Hx. left. by apply (Hsub (cleared bk order)).
  - unfold resting. destruct (refresh_sides
      (if 0 <=? Order.quantity order
       then set_buy_orders (cleared bk order)
              (buy_orders (cleared bk order) ++ [admitted bk order])
       else set_sell_orders (cleared bk order)
              (sell_orders (cleared bk order) ++ [admitted bk order]))) as [-> ->].
    unfold sorted_descending, sorted_ascending.
    rewrite elem_of_app, !sorted_by_elem_of.
    destruct (0 <=? Order.quantity order); simpl; rewrite elem_of_app, list_elem_of_singleton.
    + intros [[Hx | ->]|Hx]; [left|by right|left];
        apply (Hsub (cleared bk order)); try done; apply elem_of_app; auto.
    + intros [Hx|[Hx | ->]]; [left|left|by right];
        apply (Hsub (cleared bk order)); try done; apply elem_of_app; auto.
  - unfold resting. destruct (refresh_sides
      (settled (cleared bk order) (admitted bk order)
         (maker (cleared bk order) (admitted bk order)))) as [-> ->].
    unfold sorted_descending, sorted_ascending.
    rewrite elem_of_app, !sorted_by_elem_of, <- elem_of_app.
    intros Hx. left. revert Hx. apply Hsub; unfold settled; simpl;
      destruct (0 <=? _); try done; apply remove_first_sublist.
  - intros Hx. left. by apply (Hsub (cleared bk order)).
Qed.

Lemma add_product_name bk l order :
  product_name ((add (bk, l) order).2.1) = product_name bk.
Proof.
  destruct (add_cases bk l order)
    as [(_ & ->)|[(_ & _ & ->)|[(_ & _ & _ & ->)|(_ & _ & _ & ->)]]];
    cbn [fst snd]; try done.
  - destruct (refresh_others
      (if 0 <=? Order.quantity order
       then set_buy_orders (cleared bk order)
              (buy_orders (cleared bk order) ++ [admitted bk order])
       else set_sell_orders (cleared bk order)
              (sell_orders (cleared bk order) ++ [admitted bk order]))) as (-> & _).
    by destruct (0 <=? _).
  - by destruct (refresh_others
      (settled (cleared bk order) (admitted bk order)
         (maker (cleared bk order) (admitted bk order)))) as (-> & _).
Qed.

Lemma reachable_product_name product (st : @State Agent L) :
  reachable product st → product_name (st.1) = product.
Proof.
  induction 1 as [l|[bk l] o _ IH]; [done|].
  destruct o as [order| | |l']; [|done|done|done].
  change (run_op (bk, l) (OpAdd order)) with ((add (bk, l) order).2).
  by rewrite add_product_name.
Qed.

(** What links the books of a marketplace to its ledger and its keys. *)
Lemma market_books mk :
  market_reachable mk →
  mk.1 !! "capital"%string = None
  ∧ ∀ g bk, mk.1 !! g = Some bk →
            reachable g (bk, mk.2) ∧ ∀ x, x ∈ resting bk → Order.good x = g.
Proof.
  induction 1 as [l|mk o _ [Hcap IH]]; [by split|].
  destruct o as [inventories|agent a| |l']; cbn [market_run_op fst snd].
  - (* reset *)
    split.
    + rewrite Marketplace_reset_unfold, lookup_fmap, register_goods_lookup, Hcap.
      rewrite decide_False; [done|]. by intros [_ ?].
    + intros g bk. rewrite Marketplace_reset_unfold, lookup_fmap, register_goods_lookup.
      destruct (mk.1 !! g) as [bk0|] eqn:Hg; simpl.
      * intros [= <-]. destruct (IH g bk0 Hg) as [Hr _].
        split; [apply (reachable_op g (bk0, mk.2) OpReset Hr)|].
        by intros x ?%elem_of_nil.
      * case_decide; simpl; [|done]. intros [= <-].
        split; [apply (reachable_op g (init g, mk.2) OpReset), reachable_init|].
        by intros x ?%elem_of_nil.
  - (* execute *)
    destruct (dispatch_is_add mk agent a) as [Hnone Hsome].
    destruct (submitted agent a) as [order|] eqn:Hsub.
    2:{ rewrite (Hnone eq_refl). by split. }
    specialize (Hsome order eq_refl).
    destruct (mk.1 !! Order.good order) as [bk0|] eqn:Hbk0; rewrite Hsome; cbn [fst snd].
    2:{ by split. }
    destruct (IH _ _ Hbk0) as [Hr0 Hgoods0].
    split.
    + rewrite lookup_insert_ne; [done|]. intros Heq. by rewrite Heq, Hcap in Hbk0.
    + intros g bk. destruct (decide (Order.good order = g)) as [<-|Hg].
      * rewrite lookup_insert_eq. intros [= <-]. split.
        -- rewrite <- surjective_pairing.
           apply (reachable_op _ (bk0, mk.2) (OpAdd order) Hr0).
        -- intros x [Hx| ->]%resting_add; [by apply Hgoods0|done].
      * rewrite lookup_insert_ne by done. intros Hbk.
        destruct (IH _ _ Hbk) as [Hr Hgoods]. split; [|done].
        apply (reachable_op g (bk, mk.2) (OpLedger _) Hr).
  - (* step *)
    unfold Marketplace_step.
    split; [by rewrite lookup_fmap, Hcap|].
    intros g bk. rewrite lookup_fmap.
    destruct (mk.1 !! g) as [bk0|] eqn:Hg; simpl; [|done]. intros [= <-].
    destruct (IH g bk0 Hg) as [Hr Hgoods].
    split; [apply (reachable_op g (bk0, mk.2) OpStep Hr)|done].
  - (* balances change *)
    split; [done|]. intros g bk Hbk. destruct (IH g bk Hbk) as [Hr Hgoods].
    split; [apply (reachable_op g (bk, mk.2) (OpLedger l') Hr)|done].
Qed.

(** X14.  In a marketplace driven through [reset], [execute] and [step]
    from [Marketplace()], the book kept under a good is a book of that
    good, in a state a run of that book reaches on the marketplace's
    ledger, and every order resting in it is an order for that good.  The
    capital asset has no book, so an order for it raises [KeyError]. *)
Theorem market_books_keep_their_good mk :
  market_reachable mk →
  (∀ g bk, mk.1 !! g = Some bk →
           product_name bk = g
           ∧ reachable g (bk, mk.2)
           ∧ ∀ x, x ∈ resting bk → Order.good x = g)
  ∧ mk.1 !! "capital"%string = None
  ∧ ∀ agent price quantity,
      Marketplace_execute mk agent (ActionTuple "capital" price quantity)
      = (Some (KeyError "capital"), mk).
Proof.
  intros [Hcap Hbooks]%market_books. split; [|split; [done|]].
  - intros g bk Hbk. destruct (Hbooks g bk Hbk) as [Hr Hgoods].
    split; [apply (reachable_product_name g (bk, mk.2) Hr)|by split].
  - intros agent price quantity.
    destruct (dispatch_is_add mk agent
                (ActionTuple "capital" price quantity)) as [_ Hsome].
    specialize (Hsome _ eq_refl). simpl in Hsome. by rewrite Hcap in Hsome.
Qed.

(** X15.  Looking a good up after a reset: every good of an inventory
    other than the capital asset is found, with a book of that good that
    holds no order; the capital asset raises [KeyError], as does any good
    without a book. *)
Theorem lookup_after_reset mk inventories :
  market_reachable mk →
  (∀ keys g, keys ∈ inventories → g ∈ keys → g ≠ "capital"%string →
     ∃ bk, Marketplace_getitem (Marketplace_reset (mk.1) inventories) g = inl bk
           ∧ product_name bk = g
           ∧ get_full_orderbook bk = [])
  ∧ Marketplace_getitem (Marketplace_reset (mk.1) inventories) "capital"
    = inr (KeyError "capital")
  ∧ (∀ g, mk.1 !! g = None → Marketplace_getitem (mk.1) g = inr (KeyError g)).
Proof.
  intros Hmk.
  pose proof (market_reachable_op mk (MarketReset inventories) Hmk) as Hmk'.
  apply market_books in Hmk' as (Hcap & Hbooks). simpl in *.
  split; [|split].
  - intros keys g Hkeys Hg Hne.
    destruct (reset_registers_goods (mk.1) inventories g) as [Hdom Hempty].
    destruct (proj2 Hdom) as [bk Hbk]; [right; split; [done|by exists keys]|].
    exists bk. unfold Marketplace_getitem. rewrite Hbk.
    rewrite decide_True by by eexists.
    destruct (Hbooks g bk Hbk) as (Hr & _). destruct (Hempty bk Hbk) as (? & _).
    split; [done|]. split; [|done].
    apply (reachable_product_name g (bk, mk.2) Hr).
  - unfold Marketplace_getitem. rewrite Hcap. by rewrite decide_False by by intros [? ?].
  - intros g Hg. unfold Marketplace_getitem. rewrite Hg.
    by rewrite decide_False by by intros [? ?].
Qed.

End MarketplaceFacts.

(** ** The further properties on the scenarios *)

(** One trade has been made: it is numbered 0. *)
Lemma trades_numbered_witness :
  reachable "G" bid_taken
  ∧ num_transactions bid_taken.1 = length (history bid_taken.1)
  ∧ HistoryRow.transaction_id <$> history bid_taken.1
    = seq 0 (num_transactions bid_taken.1).
Proof.
  assert (reachable "G" bid_taken) as Hr by apply reachable_fresh_run.
  split; [exact Hr|].
  destruct (trades_numbered "G" bid_taken Hr) as (Hn & Hids & _).
  split; [exact Hn|exact Hids].
Defined.

(** Two offers rest: both are for quantities below zero. *)
Lemma sides_hold_their_sign_witness :
  reachable "G" two_offers
  ∧ (∀ x, x ∈ sell_orders two_offers.1 → Order.quantity x < 0).
Proof.
  assert (reachable "G" two_offers) as Hr by apply reachable_fresh_run.
  split; [exact Hr|].
  exact (proj1 (proj2 (sides_hold_their_sign "G" two_offers Hr))).
Defined.

(** The two offers, as [get_full_orderbook] lists them. *)
Lemma full_orderbook_layout_witness :
  reachable "G" two_offers
  ∧ ∃ bids offers,
      get_full_orderbook two_offers.1 = bids ++ offers
      ∧ length bids = length (buy_orders two_offers.1)
      ∧ length offers = length (sell_orders two_offers.1)
      ∧ Forall (λ pq, 0 < pq.2) bids
      ∧ Forall (λ pq, pq.2 < 0) offers
      ∧ StronglySorted (λ a b, num_le b.1 a.1) bids
      ∧ StronglySorted (λ a b, num_le a.1 b.1) offers.
Proof.
  assert (reachable "G" two_offers) as Hr by apply reachable_fresh_run.
  split; [exact Hr|]. exact (full_orderbook_layout "G" two_offers Hr).
Defined.


(** Agent B offers 1 at 11 over the bid at 10: no cross, the offer rests. *)
Lemma uncrossed_order_rests_witness :
  reachable "G" bid_rests
  ∧ is_order_legitimate bid_rests (order_of "B" 11 (-1)) (0 <=? -1) = true
  ∧ crosses (cleared bid_rests.1 (order_of "B" 11 (-1)))
      (admitted bid_rests.1 (order_of "B" 11 (-1))) = false
  ∧ (add bid_rests (order_of "B" 11 (-1))).1 = Returns ()
  ∧ num_transactions (add bid_rests (order_of "B" 11 (-1))).2.1 = 0%nat.
Proof.
  assert (reachable "G" bid_rests) as Hr by apply reachable_fresh_run.
  assert (is_order_legitimate bid_rests (order_of "B" 11 (-1)) (0 <=? -1) = true)
    as Hl by reflexivity.
  assert (crosses (cleared bid_rests.1 (order_of "B" 11 (-1)))
            (admitted bid_rests.1 (order_of "B" 11 (-1))) = false) as Hc
    by reflexivity.
  split; [exact Hr|]. split; [exact Hl|]. split; [exact Hc|].
  destruct (uncrossed_order_rests "G" bid_rests (order_of "B" 11 (-1)) Hr Hl Hc)
    as (Hret & _ & Hn & _).
  split; [exact Hret|exact Hn].
Defined.

(** Agent C bids 1 at 10 on the two offers: it takes A's offer at 10, the
    lower one, and B's stays. *)
Lemma fresh_book_matches_best_witness :
  reachable "G" two_offers
  ∧ caches_fresh two_offers.1
  ∧ is_order_legitimate two_offers (order_of "C" 10 1) (0 <=? 1) = true
  ∧ (∀ x, x ∈ opposite two_offers.1 (order_of "C" 10 1) → Order.agent x ≠ "C")
  ∧ (add two_offers (order_of "C" 10 1)).1 = Returns ()
  ∧ sell_orders (add two_offers (order_of "C" 10 1)).2.1
    = [Order.mk "G" (Int 11) (-1) "B" (Some 1%nat)]
  ∧ num_transactions (add two_offers (order_of "C" 10 1)).2.1 = 1%nat.
Proof.
  assert (reachable "G" two_offers) as Hr by apply reachable_fresh_run.
  assert (caches_fresh two_offers.1) as Hf by (split; reflexivity).
  assert (is_order_legitimate two_offers (order_of "C" 10 1) (0 <=? 1) = true)
    as Hl by reflexivity.
  assert (∀ x, x ∈ opposite two_offers.1 (order_of "C" 10 1) → Order.agent x ≠ "C")
    as Hfree.
  { apply Forall_forall. vm_compute. repeat (constructor; [discriminate|]). constructor. }
  split; [exact Hr|]. split; [exact Hf|]. split; [exact Hl|]. split; [exact Hfree|].
  destruct (fresh_book_matches_best "G" two_offers (order_of "C" 10 1) Hr Hf Hl Hfree)
    as (Hret & _ & Hopp & Hn & _).
  split; [exact Hret|]. split; [exact Hopp|exact Hn].
Defined.

Lemma market_reachable_one_market : market_reachable one_market.
Proof.
  apply (market_reachable_op (∅, funds) (MarketReset [["capital"; "G"]; ["capital"; "G"]])).
  constructor.
Qed.

(** After the first reset there is a book for [G] and none for the capital
    asset. *)
Lemma market_books_keep_their_good_witness :
  market_reachable one_market
  ∧ one_market.1 !! "capital"%string = None
  ∧ ∀ bk, one_market.1 !! "G"%string = Some bk → product_name bk = "G"%string.
Proof.
  assert (market_reachable one_market) as Hmk by apply market_reachable_one_market.
  split; [exact Hmk|].
  destruct (market_books_keep_their_good one_market Hmk) as (Hbooks & Hcap & _).
  split; [exact Hcap|]. intros bk Hbk. exact (proj1 (Hbooks "G"%string bk Hbk)).
Defined.

(** A second reset with the same inventories finds [G] and not the capital
    asset. *)
Lemma lookup_after_reset_witness :
  market_reachable one_market
  ∧ Marketplace_getitem
      (Marketplace_reset one_market.1 [["capital"%string; "G"%string]]) "capital"
    = inr (KeyError "capital").
Proof.
  assert (market_reachable one_market) as Hmk by apply market_reachable_one_market.
  split; [exact Hmk|].
  exact (proj1 (proj2 (lookup_after_reset one_market [["capital"%string; "G"%string]] Hmk))).
Defined.

(** * The environment *)

(** ** The adjacency matrix *)

Section Adjacency.
Import BaseEnvironment.
Local Open Scope nat_scope.

Implicit Types (m : list (list Z)) (i j k size : nat) (v : Z).

Lemma square_set_cell size m i j v : square size m → square size (set_cell m i j v).
Proof.
  intros [Hlen Hrows]. unfold set_cell. split; [by rewrite length_alter|].
  intros row [k Hk]%list_elem_of_lookup.
  destruct (decide (k = i)) as [->|Hne].
  - rewrite list_lookup_alter_eq in Hk.
    destruct (m !! i) as [row0|] eqn:Hrow0; simpl in Hk; [|done].
    injection Hk as <-. rewrite length_insert. apply Hrows.
    by eapply list_elem_of_lookup_2.
  - rewrite list_lookup_alter_ne in Hk by done.
    apply Hrows. by eapply list_elem_of_lookup_2.
Qed.

Lemma square_get_cell size m i j :
  square size m → i < size → j < size → is_Some (get_cell m i j).
Proof.
  intros [Hlen Hrows] Hi Hj. unfold get_cell.
  destruct (lookup_lt_is_Some_2 m i) as [row Hrow]; [lia|]. rewrite Hrow. simpl.
  apply lookup_lt_is_Some_2. rewrite (Hrows row); [done|].
  by eapply list_elem_of_lookup_2.
Qed.

Lemma get_set_cell size m i j v i' j' :
  square size m → i < size → j < size →
  get_cell (set_cell m i j v) i' j'
  = if decide (i' = i ∧ j' = j) then Some v else get_cell m i' j'.
Proof.
  intros [Hlen Hrows] Hi Hj. unfold get_cell, set_cell.
  destruct (decide (i' = i)) as [->|Hne].
  - rewrite list_lookup_alter_eq.
    destruct (lookup_lt_is_Some_2 m i) as [row Hrow]; [lia|]. rewrite Hrow. simpl.
    assert (length row = size) as Hrowlen.
    { apply Hrows. by eapply list_elem_of_lookup_2. }
    destruct (decide (j' = j)) as [->|Hnej].
    + rewrite decide_True by done. apply list_lookup_insert_eq. lia.
    + rewrite decide_False by (by intros [_ ?]). by apply list_lookup_insert_ne.
  - rewrite list_lookup_alter_ne by done. by rewrite decide_False by (by intros [? _]).
Qed.

(** One row: the cells right of the diagonal take the values of the column
    below the diagonal. *)
Lemma mirror_row size i js m :
  square size m → i < size → Forall (λ j, i < j < size) js →
  let m' := foldl (λ m j, match get_cell m j i with
                          | Some v => set_cell m i j v
                          | None => m
                          end) m js in
  square size m'
  ∧ ∀ i' j', get_cell m' i' j'
             = if decide (i' = i ∧ j' ∈ js) then get_cell m j' i else get_cell m i' j'.
Proof.
  intros Hsq Hi. revert m Hsq. induction js as [|j js IH]; intros m Hsq Hjs;
    cbv zeta; cbn [foldl].
  - split; [done|]. intros i' j'. rewrite decide_False; [done|].
    by intros [_ ?%elem_of_nil].
  - apply Forall_cons in Hjs as [[Hij Hj] Hjs].
    destruct (square_get_cell size m j i Hsq) as [v Hv]; [lia|lia|]. rewrite Hv.
    destruct (IH (set_cell m i j v)) as [Hsq' Hcells];
      [by apply square_set_cell|done|].
    split; [done|]. intros i' j'. rewrite Hcells.
    rewrite !(get_set_cell size) by (done || lia).
    destruct (decide (i' = i ∧ j' ∈ js)) as [[-> Hin]|Hout].
    + rewrite (decide_True (P := i = i ∧ j' ∈ j :: js)) by (split; [done|by right]).
      rewrite (decide_False (P := j' = i ∧ i = j)); [done|]. intros [-> _].
      rewrite Forall_forall in Hjs. specialize (Hjs _ Hin). lia.
    + destruct (decide (i' = i ∧ j' = j)) as [[-> ->]|Hother].
      * rewrite decide_True by (split; [done|by left]). by rewrite Hv.
      * rewrite decide_False; [done|].
        intros [-> [->|?]%elem_of_cons]; [by apply Hother|by apply Hout].
Qed.

(** The rows one after the other. *)
Lemma mirror_rows size rows m :
  square size m → Forall (λ i, i < size) rows →
  let m' := foldl (λ m i,
                     foldl (λ m j, match get_cell m j i with
                                   | Some v => set_cell m i j v
                                   | None => m
                                   end) m (seq (i + 1) (size - (i + 1)))) m rows in
  square size m'
  ∧ ∀ i' j', j' < size →
             get_cell m' i' j'
             = if decide (i' ∈ rows ∧ i' < j') then get_cell m j' i' else get_cell m i' j'.
Proof.
  revert m. induction rows as [|i rows IH]; intros m Hsq His; cbv zeta; cbn [foldl].
  - split; [done|]. intros i' j' _. rewrite decide_False; [done|].
    by intros [?%elem_of_nil _].
  - apply Forall_cons in His as [Hi His].
    destruct (mirror_row size i (seq (i + 1) (size - (i + 1))) m Hsq Hi)
      as [Hsq1 Hrow].
    { apply Forall_forall. intros j Hj%elem_of_seq. lia. }
    destruct (IH _ Hsq1 His) as [Hsq' Hcells].
    split; [done|]. intros i' j' Hj'. rewrite (Hcells i' j' Hj'), !Hrow.
    destruct (decide (i' ∈ rows ∧ i' < j')) as [[Hin Hlt]|Hout].
    + rewrite (decide_True (P := i' ∈ i :: rows ∧ i' < j')) by (split; [by right|done]).
      rewrite (decide_False (P := j' = i ∧ i' ∈ seq (i + 1) (size - (i + 1))));
        [done|]. intros [-> Hin'%elem_of_seq]. lia.
    + destruct (decide (i' = i ∧ j' ∈ seq (i + 1) (size - (i + 1))))
        as [[-> Hin%elem_of_seq]|Hother].
      * rewrite decide_True; [done|]. split; [by left|lia].
      * rewrite decide_False; [done|].
        intros [[->|?]%elem_of_cons Hlt]; [|by apply Hout].
        apply Hother. split; [done|]. apply elem_of_seq. lia.
Qed.

(** X16.  The adjacency matrix has [size] rows of [size] cells; on and
    below the diagonal it holds the values drawn, above the diagonal the
    mirror image of what is below, so it is symmetric whatever is drawn. *)
Theorem adjacency_matrix_symmetric (randint : nat → nat → Z) size i j :
  i < size → j < size →
  length (generate_random_adjacency_matrix randint size) = size
  ∧ get_cell (generate_random_adjacency_matrix randint size) i j
    = Some (randint (i `max` j) (i `min` j))
  ∧ get_cell (generate_random_adjacency_matrix randint size) i j
    = get_cell (generate_random_adjacency_matrix randint size) j i.
Proof.
  intros Hi Hj.
  set (m0 := (λ i, (λ j, randint i j) <$> seq 0 size) <$> seq 0 size).
  assert (square size m0) as Hsq.
  { unfold m0. split; [by rewrite length_fmap, length_seq|].
    intros row (k & -> & _)%list_elem_of_fmap. by rewrite length_fmap, length_seq. }
  assert (∀ a b, a < size → b < size → get_cell m0 a b = Some (randint a b)) as Hm0.
  { intros a b Ha Hb. unfold get_cell, m0.
    rewrite list_lookup_fmap, lookup_seq_lt by done. simpl.
    by rewrite list_lookup_fmap, lookup_seq_lt by done. }
  destruct (mirror_rows size (seq 0 size) m0 Hsq) as [[Hlen _] Hcells].
  { apply Forall_forall. intros k Hk%elem_of_seq. lia. }
  assert (∀ a b, a < size → b < size →
                 get_cell (generate_random_adjacency_matrix randint size) a b
                 = Some (randint (a `max` b) (a `min` b))) as Hall.
  { intros a b Ha Hb. unfold generate_random_adjacency_matrix. fold m0.
    rewrite (Hcells a b Hb). case_decide as Hab.
    - destruct Hab as [_ Hlt]. rewrite Hm0 by done.
      by rewrite Nat.max_r, Nat.min_l by lia.
    - rewrite Hm0 by done.
      assert (b ≤ a) by (destruct (decide (a < b)); [|lia];
                         exfalso; apply Hab; split; [apply elem_of_seq; lia|done]).
      by rewrite Nat.max_l, Nat.min_r by lia. }
  split; [done|]. split; [by apply Hall|].
  rewrite !Hall by done. by rewrite Nat.max_comm, Nat.min_comm.
Qed.

End Adjacency.

(** ** The registry of agents *)

Section RegistryFacts.
Import BaseEnvironment.
Local Open Scope nat_scope.
Context {Artifact Controller : Type}.
Variable add_to_controller : Controller → Artifact → Controller.
Variable get_first_name : nat → string.

Local Abbreviation item := (@item Artifact).
Local Abbreviation World := (@World Controller).
Local Abbreviation add := (add add_to_controller get_first_name).
Local Abbreviation add_each := (add_each add_to_controller get_first_name).
Local Abbreviation add_agent := (@add_agent Controller get_first_name).
Local Abbreviation add_artifact := (add_artifact add_to_controller).

Implicit Types (w : World) (it : item) (items : list item).

(** Induction on items, through the lists they nest. *)
Lemma item_nested_ind (P : item → Prop) :
  (∀ artifact, P (ItemArtifact artifact)) →
  (∀ agent, P (ItemAgent agent)) →
  (∀ items, Forall P items → P (ItemList items)) →
  P ItemOther →
  ∀ it, P it.
Proof.
  intros Hartifact Hagent Hlist Hother.
  fix go 1. intros [artifact|agent|items|];
    [apply Hartifact|apply Hagent| |apply Hother].
  apply Hlist. induction items as [|it items IH]; constructor; [apply go|apply IH].
Qed.

Lemma add_list w items : add w (ItemList items) = add_each w items.
Proof.
  revert w. induction items as [|it items IH]; intros w; [done|].
  simpl. destruct (BaseEnvironment.add _ _ w it) as [[e|] w']; [done|apply IH].
Qed.

Lemma leaves_list items :
  leaves (ItemList items) = concat (leaves <$> items).
Proof.
  induction items as [|it items IH]; [done|].
  simpl in *. by rewrite IH.
Qed.

Lemma add_each_app w items items' :
  add_each w (items ++ items')
  = match add_each w items with
    | (None, w') => add_each w' items'
    | (Some e, w') => (Some e, w')
    end.
Proof.
  revert w. induction items as [|it items IH]; intros w; simpl.
  - by destruct (add_each w items') as [[e|] w'].
  - destruct (BaseEnvironment.add _ _ w it) as [[e|] w']; [done|apply IH].
Qed.

Lemma add_leaves it w : add w it = add_each w (leaves it).
Proof.
  revert w. induction it as [artifact|agent|items IH|] using item_nested_ind;
    intros w; try done.
  rewrite add_list, leaves_list. revert w.
  induction IH as [|it items Hit _ IHitems]; intros w; [done|].
  cbn [fmap list_fmap concat]. rewrite add_each_app. simpl.
  rewrite (Hit w).
  destruct (add_each w (leaves it)) as [[e|] w']; [done|apply IHitems].
Qed.

Lemma leaves_flat it :
  Forall (λ leaf, ∀ items, leaf ≠ ItemList items) (leaves it).
Proof.
  induction it as [artifact|agent|items IH|] using item_nested_ind;
    try (by repeat constructor).
  rewrite leaves_list. induction IH as [|it items Hit _ IHitems]; [constructor|].
  cbn [fmap list_fmap concat]. by apply Forall_app.
Qed.

(** The leaves before the first unsupported item are all added. *)
Lemma add_each_supported w items :
  Forall (λ leaf, ∀ items, leaf ≠ ItemList items) items →
  ItemOther ∉ items →
  (add_each w items).1 = None
  ∧ agents ((add_each w items).2.1) = agents (w.1) ++ agent_refs items.
Proof.
  revert w. induction items as [|it items IH]; intros w Hflat Hsup.
  - simpl. by rewrite app_nil_r.
  - apply Forall_cons in Hflat as [Hit Hflat].
    apply not_elem_of_cons in Hsup as [Hne Hsup].
    destruct it as [artifact|agent|items'|]; [| |by destruct (Hit items')|done].
    + cbn [BaseEnvironment.add_each BaseEnvironment.add].
      destruct (IH (add_artifact w artifact) Hflat Hsup) as [-> ->]. done.
    + cbn [BaseEnvironment.add_each BaseEnvironment.add].
      destruct (IH (add_agent w agent) Hflat Hsup) as [-> ->].
      destruct w as [env heap]. cbn [fst snd agents BaseEnvironment.add_agent].
      unfold agent_refs. simpl. by rewrite <- (assoc_L (++)).
Qed.

(** X17.  [add] takes the items of nested lists one after the other, in
    the order of their occurrence, as if the lists were one flat list.  It
    returns when none of them is unsupported, with the agents among them
    appended to [agents] in that order.  It raises [UnsupportedItemType] at
    the first unsupported item: what stands before it has been added and
    stays added, what stands behind it is not looked at. *)
Theorem add_flattens_and_stops w it :
  add w it = add_each w (leaves it)
  ∧ (ItemOther ∉ leaves it →
     (add w it).1 = None
     ∧ agents ((add w it).2.1) = agents (w.1) ++ agent_refs (leaves it))
  ∧ (∀ before behind,
       leaves it = before ++ ItemOther :: behind → ItemOther ∉ before →
       (add w it).1 = Some UnsupportedItemType
       ∧ (add w it).2 = (add_each w before).2
       ∧ agents ((add w it).2.1) = agents (w.1) ++ agent_refs before).
Proof.
  split; [apply add_leaves|]. split.
  - intros Hsup. rewrite add_leaves.
    apply add_each_supported; [apply leaves_flat|done].
  - intros before behind Hleaves Hsup. rewrite add_leaves, Hleaves, add_each_app.
    pose proof (leaves_flat it) as Hflat. rewrite Hleaves in Hflat.
    apply Forall_app in Hflat as [Hflat _].
    destruct (add_each_supported w before Hflat Hsup) as [Hnone Hagents].
    destruct (add_each w before) as [[e|] w']; [done|]. by simpl in *.
Qed.

(** What [add_agent] and [add_artifact] keep, [add] keeps. *)
Lemma add_invariant (P : World → Prop) :
  (∀ w agent, P w → P (add_agent w agent)) →
  (∀ w artifact, P w → P (add_artifact w artifact)) →
  ∀ it w, P w → P ((add w it).2).
Proof.
  intros Hagent Hartifact it.
  induction it as [artifact|agent|items IH|] using item_nested_ind; intros w Hw;
    [by apply Hartifact|by apply Hagent| |done].
  rewrite add_list. revert w Hw.
  induction IH as [|it items Hit _ IHitems]; intros w Hw; [done|].
  simpl. specialize (Hit w Hw).
  destruct (BaseEnvironment.add _ _ w it) as [[e|] w']; [done|by apply IHitems].
Qed.

Lemma registry_ok_add_agent w agent : registry_ok w → registry_ok (add_agent w agent).
Proof.
  destruct w as [env heap]. unfold registry_ok. cbn [fst snd].
  intros (Hn & Hnames & Hidx & Hlisted).
  cbn [BaseEnvironment.add_agent fst snd agents agent_names n_agents agent_idx].
  set (heap1 := set_id heap agent (agent_idx env)).
  set (heap2 := if decide (AgentObject.name (heap1 agent)
                             ∈ (λ a, AgentObject.name (heap1 a)) <$> agents env)
                then set_name heap1 agent
                       (get_first_name (S (agent_idx env)) +:+ pretty (S (agent_idx env)))
                else heap1).
  assert (AgentObject.id (heap2 agent) = Some (agent_idx env)) as Hid.
  { unfold heap2, heap1, set_name, set_id. case_decide; simpl; by rewrite !decide_True. }
  assert (∀ r, r ≠ agent → heap2 r = heap r) as Hother.
  { intros r Hr. unfold heap2, heap1, set_name, set_id.
    case_decide; by rewrite ?decide_False. }
  split; [done|]. split; [by rewrite !length_app, Hnames|].
  split; [rewrite length_app; simpl; lia|].
  intros i r Hi Hcount. rewrite filter_app, length_app in Hcount.
  destruct (decide (r = agent)) as [->|Hne].
  - rewrite (filter_cons_True (λ r', r' = agent)) in Hcount by done.
    simpl in Hcount.
    assert (agent ∉ agents env) as Hfresh.
    { intros Hin. assert (agent ∈ filter (λ r', r' = agent) (agents env)) as Hin'
        by by apply list_elem_of_filter.
      destruct (filter (λ r', r' = agent) (agents env)); [by apply elem_of_nil in Hin'|].
      simpl in Hcount. lia. }
    assert (i = length (agents env)) as ->.
    { destruct (decide (i < length (agents env))) as [Hlt|Hge].
      - rewrite lookup_app_l in Hi by done. by apply list_elem_of_lookup_2 in Hi.
      - apply lookup_lt_Some in Hi. rewrite length_app in Hi. simpl in Hi. lia. }
    split; [by rewrite Hid, Hidx|].
    rewrite <- Hnames. by rewrite list_lookup_middle.
  - rewrite (filter_cons_False (λ r', r' = r)) in Hcount by done.
    simpl in Hcount. rewrite Nat.add_0_r in Hcount.
    assert (agents env !! i = Some r) as Hi'.
    { destruct (decide (i < length (agents env))) as [Hlt|Hge].
      - by rewrite lookup_app_l in Hi.
      - rewrite lookup_app_r in Hi by lia.
        apply list_lookup_singleton_Some in Hi as [_ ?]. done. }
    destruct (Hlisted i r Hi' Hcount) as [Hidr Hnamer].
    rewrite (Hother r Hne). split; [done|].
    rewrite lookup_app_l; [done|]. rewrite Hnames. by eapply lookup_lt_Some.
Qed.

(** X18.  In every world that calls of [add] make of a new environment,
    failed calls included, [n_agents], the length of [agent_names] and the
    agent counter are the number of agents listed, and an agent that is
    listed once has its position in the list as id and its current name at
    that position of [agent_names]. *)
Theorem registry_in_step controller w :
  built add_to_controller get_first_name controller w →
  n_agents (w.1) = length (agents (w.1))
  ∧ length (agent_names (w.1)) = length (agents (w.1))
  ∧ agent_idx (w.1) = length (agents (w.1))
  ∧ ∀ i r, agents (w.1) !! i = Some r →
           length (filter (λ r', r' = r) (agents (w.1))) = 1 →
           AgentObject.id (w.2 r) = Some i
           ∧ agent_names (w.1) !! i = Some (AgentObject.name (w.2 r)).
Proof.
  induction 1 as [heap|w it _ IH].
  - by repeat split.
  - revert IH. apply (add_invariant registry_ok); [apply registry_ok_add_agent|].
    by intros [env heap] artifact.
Qed.

(** X19.  [add_agent] never turns an agent away.  The agent is appended
    with the old value of the counter as id and is the one its name looks
    up; the other agent objects are untouched.  An agent whose name no
    listed agent has keeps it; an agent that is listed already finds its
    own name taken and is renamed to a drawn first name followed by the new
    value of the counter. *)
Theorem add_agent_names w agent :
  agents ((add_agent w agent).1) = agents (w.1) ++ [agent]
  ∧ AgentObject.id ((add_agent w agent).2 agent) = Some (agent_idx (w.1))
  ∧ agent_names ((add_agent w agent).1)
    = agent_names (w.1) ++ [AgentObject.name ((add_agent w agent).2 agent)]
  ∧ agent_name_lookup ((add_agent w agent).1)
      !! AgentObject.name ((add_agent w agent).2 agent) = Some agent
  ∧ (∀ r, r ≠ agent → (add_agent w agent).2 r = w.2 r)
  ∧ ((∀ r, r ∈ agents (w.1) →
           AgentObject.name (w.2 r) ≠ AgentObject.name (w.2 agent)) →
     AgentObject.name ((add_agent w agent).2 agent) = AgentObject.name (w.2 agent))
  ∧ (agent ∈ agents (w.1) →
     AgentObject.name ((add_agent w agent).2 agent)
     = get_first_name (S (agent_idx (w.1))) +:+ pretty (S (agent_idx (w.1)))).
Proof.
  destruct w as [env heap].
  cbn [BaseEnvironment.add_agent fst snd agents agent_names agent_name_lookup].
  set (heap1 := set_id heap agent (agent_idx env)).
  assert (∀ r, AgentObject.name (heap1 r) = AgentObject.name (heap r)) as Hname1.
  { intros r. unfold heap1, set_id. by case_decide; subst. }
  split; [done|]. split.
  { unfold heap1, set_name, set_id. case_decide; simpl; by rewrite !decide_True. }
  split; [done|]. split; [by rewrite lookup_insert_eq|]. split.
  { intros r Hr. unfold heap1, set_name, set_id. case_decide; by rewrite ?decide_False. }
  split.
  - intros Hfree. rewrite decide_False; [apply Hname1|].
    intros (r & Heq & Hr)%list_elem_of_fmap. rewrite !Hname1 in Heq.
    by apply (Hfree r Hr).
  - intros Hin. rewrite decide_True.
    + unfold set_name. by rewrite decide_True.
    + apply list_elem_of_fmap. by exists agent.
Qed.

End RegistryFacts.

(** Two agents added in one list: numbered 0 and 1. *)
Lemma registry_in_step_witness :
  BaseEnvironment.built (Artifact := unit) (λ c _, c) (λ _, "Ann"%string) tt BaseEnvironment.two_agents
  ∧ BaseEnvironment.n_agents (BaseEnvironment.two_agents.1) = 2%nat
  ∧ BaseEnvironment.agent_idx (BaseEnvironment.two_agents.1) = 2%nat.
Proof.
  assert (BaseEnvironment.built (Artifact := unit) (λ c _, c) (λ _, "Ann"%string) tt
            BaseEnvironment.two_agents) as Hb.
  { apply (BaseEnvironment.built_add (Artifact := unit) _ _ tt
             (BaseEnvironment.init tt, BaseEnvironment.unnamed)).
    constructor. }
  split; [exact Hb|].
  destruct (registry_in_step (Artifact := unit) (λ c _, c) (λ _, "Ann"%string) tt
              BaseEnvironment.two_agents Hb) as (Hn & _ & Hidx & _).
  split; [exact Hn|exact Hidx].
Defined.

(** A matrix of size 3 with a single 1 drawn, below the diagonal: the 1 is
    mirrored above it. *)
Lemma adjacency_matrix_symmetric_witness :
  (0 < 3)%nat ∧ (1 < 3)%nat
  ∧ BaseEnvironment.get_cell
      (BaseEnvironment.generate_random_adjacency_matrix BaseEnvironment.draws 3) 0 1
    = Some 1.
Proof.
  assert (0 < 3)%nat as H0 by lia. assert (1 < 3)%nat as H1 by lia.
  split; [exact H0|]. split; [exact H1|].
  exact (proj1 (proj2 (adjacency_matrix_symmetric BaseEnvironment.draws 3 0 1 H0 H1))).
Defined.
